(** * Delta code review tool: line alignment and report rendering

    A shallow embedding of [delta_code_review_tool.py].  The tool reads two
    versions of a text file, asks [difflib.ndiff] for a line delta, expands
    the delta into two gap-padded, line-numbered columns ([compare_files])
    and writes them to a four-column worksheet with green/red fills
    ([create_excel]).

    Strings are [string]; a character is a code point below 256.  Python
    lists are Rocq lists, [list.append] is [l ++ [x]].  Exceptions are an
    explicit error type, the console and the file store are threaded through
    a small state-and-error monad. *)

From Stdlib Require Import Ascii String DecimalString Floats Uint63.
From stdpp Require Import base list sorting strings gmap.

Set Warnings "-inexact-float,-abstract-large-number".

Open Scope string_scope.
Open Scope nat_scope.
Open Scope list_scope.

(** ** Python string primitives used by the tool *)

Module PyStr.

(** [str.isspace] on one character (code points below 256). *)
Definition isspace (c : ascii) : bool :=
  let n := nat_of_ascii c in
  (((9 <=? n) && (n <=? 13)) || ((28 <=? n) && (n <=? 32))
   || (n =? 133) || (n =? 160))%nat.

(** [s.rstrip()]: drop the trailing run of whitespace. *)
Fixpoint rstrip (s : string) : string :=
  match s with
  | EmptyString => EmptyString
  | String c s' =>
      match rstrip s' with
      | EmptyString => if isspace c then EmptyString else String c EmptyString
      | r => String c r
      end
  end.

(** [s.startswith(p)]. *)
Definition startswith (p s : string) : bool := String.prefix p s.

(** [s[n:]]. *)
Fixpoint slice_from (n : nat) (s : string) : string :=
  match n, s with
  | O, _ => s
  | S _, EmptyString => EmptyString
  | S n', String _ s' => slice_from n' s'
  end.

(** [s[:n]]. *)
Fixpoint slice_to (n : nat) (s : string) : string :=
  match n, s with
  | O, _ => EmptyString
  | S _, EmptyString => EmptyString
  | S n', String c s' => String c (slice_to n' s')
  end.

(** [str(n)] for a non-negative integer: its decimal digits. *)
Definition str (n : nat) : string := NilEmpty.string_of_uint (Nat.to_uint n).

(** [s.split(sep, 1)] for a one-character separator: at most one cut, at
    the first occurrence of [sep]. *)
Fixpoint split1 (sep : ascii) (s : string) : list string :=
  match s with
  | EmptyString => [EmptyString]
  | String c s' =>
      if Ascii.eqb c sep then [EmptyString; s']
      else match split1 sep s' with
           | hd :: tl => String c hd :: tl
           | [] => [String c EmptyString]
           end
  end.

(** [s.lstrip(chars)] and [s.strip(chars)] for a one-character set. *)
Fixpoint lstrip_char (q : ascii) (s : string) : string :=
  match s with
  | String c s' => if Ascii.eqb c q then lstrip_char q s' else s
  | EmptyString => EmptyString
  end.

Fixpoint rstrip_char (q : ascii) (s : string) : string :=
  match s with
  | EmptyString => EmptyString
  | String c s' =>
      match rstrip_char q s' with
      | EmptyString => if Ascii.eqb c q then EmptyString else String c EmptyString
      | r => String c r
      end
  end.

Definition strip_char (q : ascii) (s : string) : string :=
  rstrip_char q (lstrip_char q s).

(** Truthiness of a string: [if s] holds when [s] is not empty. *)
Definition truthy (s : string) : bool :=
  match s with EmptyString => false | String _ _ => true end.

(** No character of [s] is [c]. *)
Fixpoint lacks (c : ascii) (s : string) : Prop :=
  match s with
  | EmptyString => True
  | String d s' => d ≠ c ∧ lacks c s'
  end.

End PyStr.

(** ** The delta format of [difflib]

    [ndiff] is a standard-library primitive.  Its deltas are lists of lines
    that each begin with a two-letter code; [restore] is the library's own
    inverse. *)

Module Delta.
Import PyStr.

Inductive which := File1 | File2.

Definition tag (w : which) : string :=
  match w with File1 => "- " | File2 => "+ " end.

(** [difflib.restore(delta, which)]. *)
Definition restore (delta : list string) (w : which) : list string :=
  slice_from 2 <$>
    filter (fun line => bool_decide (slice_to 2 line ∈ ["  "; tag w])) delta.

(** Every line carries one of the four two-letter codes. *)
Definition coded (line : string) : Prop :=
  slice_to 2 line ∈ ["  "; "- "; "+ "; "? "].

(** [delta] is a delta from [a] to [b]: well coded, and [restore] gives
    back both sequences. *)
Definition delta_of (a b delta : list string) : Prop :=
  Forall coded delta ∧ restore delta File1 = a ∧ restore delta File2 = b.

End Delta.

(** ** [difflib.SequenceMatcher] and [difflib.Differ]

    The diff primitive the tool calls, after [difflib.py] of CPython 3.11.
    Indices are [nat]; where Python writes [i - k + 1] with [k <= i + 1] the
    model writes [i + 1 - k].  Dictionaries are [gmap], sets are [gset].
    Loops whose bound is not syntactic take a [fuel] argument; the facts
    below show that the fuel the callers pass is enough. *)

Module Difflib.
Import PyStr.

(** [Match(a, b, size)]. *)
Definition block : Type := nat * nat * nat.

Inductive optag := Replace | Delete | Insert | Equal.

(** [(tag, i1, i2, j1, j2)]. *)
Definition opcode : Type := optag * nat * nat * nat * nat.

Definition float_of_nat (n : nat) : float :=
  PrimFloat.of_uint63 (Uint63.of_Z (Z.of_nat n)).

(** [_calculate_ratio(matches, length)]. *)
Definition calculate_ratio (matches length : nat) : float :=
  if (length =? 0)%nat then 1.0%float
  else (PrimFloat.div (PrimFloat.mul 2.0 (float_of_nat matches))
                      (float_of_nat length)).

(** Lexicographic order of [Match] tuples, as [list.sort] compares them. *)
Definition block_le (x y : block) : Prop :=
  let '(i1, j1, k1) := x in
  let '(i2, j2, k2) := y in
  i1 < i2 ∨ (i1 = i2 ∧ (j1 < j2 ∨ (j1 = j2 ∧ k1 ≤ k2))).

#[global] Instance block_le_dec : RelDecision block_le.
Proof.
  intros [[i1 j1] k1] [[i2 j2] k2]. unfold block_le. apply _.
Defined.

Section SequenceMatcher.
Context `{Countable A}.
Variable isjunk : option (A → bool).
Variable autojunk : bool.
Variables a b : list A.

(** *** [__chain_b] *)

Definition b2j_all : gmap A (list nat) :=
  foldl (λ (m : gmap A (list nat)) (ie : nat * A),
           <[ie.2 := default [] (m !! ie.2) ++ [ie.1]]> m)
        ∅ (imap pair b).

Definition bjunk : gset A :=
  match isjunk with
  | Some f => filter (λ elt, f elt = true) (dom b2j_all)
  | None => ∅
  end.

Definition b2j_nojunk : gmap A (list nat) :=
  filter (λ p : A * list nat, p.1 ∉ bjunk) b2j_all.

Definition bpopular : gset A :=
  if autojunk && (200 <=? length b)%nat then
    let ntest := (length b / 100 + 1)%nat in
    dom (filter (λ p : A * list nat, ntest < length p.2) b2j_nojunk)
  else ∅.

Definition b2j : gmap A (list nat) :=
  filter (λ p : A * list nat, p.1 ∉ bpopular) b2j_nojunk.

Definition isbjunk (x : A) : bool := bool_decide (x ∈ bjunk).

(** *** [find_longest_match] *)

(** [for j in b2j.get(a[i], nothing)], with its [continue] and
    [break]. *)
Fixpoint scan_row (blo bhi i : nat) (j2len : gmap nat nat) (js : list nat)
    (newj2len : gmap nat nat) (bst : block) : gmap nat nat * block :=
  match js with
  | [] => (newj2len, bst)
  | j :: js' =>
      if (j <? blo)%nat then scan_row blo bhi i j2len js' newj2len bst
      else if (bhi <=? j)%nat then (newj2len, bst)
      else
        let k := (match j with
                  | O => 0
                  | S j' => default 0 (j2len !! j')
                  end + 1)%nat in
        let bst' := if (bst.2 <? k)%nat then ((i + 1 - k)%nat, (j + 1 - k)%nat, k)
                    else bst in
        scan_row blo bhi i j2len js' (<[j := k]> newj2len) bst'
  end.

(** [for i in range(alo, ahi)]. *)
Definition scan (alo ahi blo bhi : nat) : block :=
  (foldl (λ (st : gmap nat nat * block) (i : nat),
            match a !! i with
            | Some x => scan_row blo bhi i st.1 (default [] (b2j !! x)) ∅ st.2
            | None => (∅, st.2)
            end)
         (∅, (alo, blo, 0%nat)) (seq alo (ahi - alo))).2.

Definition same_at (i j : nat) : bool :=
  match a !! i, b !! j with
  | Some x, Some y => bool_decide (x = y)
  | _, _ => false
  end.

Definition junk_at (j : nat) : bool :=
  match b !! j with Some y => isbjunk y | None => false end.

(** The two [while besti > alo and bestj > blo and ...] loops; [junk]
    tells which of them. *)
Fixpoint extend_down (junk : bool) (alo blo besti bestj bestsize : nat) : block :=
  match besti with
  | O => (besti, bestj, bestsize)
  | S i' =>
      if (alo <? besti)%nat && (blo <? bestj)%nat
         && Bool.eqb (junk_at (bestj - 1)) junk && same_at i' (bestj - 1)
      then extend_down junk alo blo i' (bestj - 1) (bestsize + 1)
      else (besti, bestj, bestsize)
  end.

(** The two [while besti+bestsize < ahi and bestj+bestsize < bhi and ...]
    loops; [n] is [ahi - (besti + bestsize)]. *)
Fixpoint extend_up (junk : bool) (ahi bhi n besti bestj bestsize : nat) : nat :=
  match n with
  | O => bestsize
  | S n' =>
      if (besti + bestsize <? ahi)%nat && (bestj + bestsize <? bhi)%nat
         && Bool.eqb (junk_at (bestj + bestsize)) junk
         && same_at (besti + bestsize) (bestj + bestsize)
      then extend_up junk ahi bhi n' besti bestj (bestsize + 1)
      else bestsize
  end.

Definition find_longest_match (alo ahi blo bhi : nat) : block :=
  let '(besti, bestj, bestsize) := scan alo ahi blo bhi in
  let '(besti, bestj, bestsize) := extend_down false alo blo besti bestj bestsize in
  let bestsize := extend_up false ahi bhi (ahi - (besti + bestsize)) besti bestj bestsize in
  let '(besti, bestj, bestsize) := extend_down true alo blo besti bestj bestsize in
  let bestsize := extend_up true ahi bhi (ahi - (besti + bestsize)) besti bestj bestsize in
  (besti, bestj, bestsize).

(** *** [get_matching_blocks] *)

(** [while queue:]; the head of [queue] is the end of the Python list,
    where [pop] and [append] work. *)
Fixpoint blocks_loop (fuel : nat) (queue : list (nat * nat * nat * nat))
    (matching_blocks : list block) : list block :=
  match fuel with
  | O => matching_blocks
  | S fuel' =>
      match queue with
      | [] => matching_blocks
      | (alo, ahi, blo, bhi) :: queue =>
          let '(i, j, k) := find_longest_match alo ahi blo bhi in
          if (k =? 0)%nat then blocks_loop fuel' queue matching_blocks
          else
            let queue := if (alo <? i)%nat && (blo <? j)%nat
                         then (alo, i, blo, j) :: queue else queue in
            let queue := if (i + k <? ahi)%nat && (j + k <? bhi)%nat
                         then ((i + k)%nat, ahi, (j + k)%nat, bhi) :: queue else queue in
            blocks_loop fuel' queue (matching_blocks ++ [(i, j, k)])
      end
  end.

(** The loop that merges adjacent blocks. *)
Definition collapse (st : block * list block) (x : block) : block * list block :=
  let '((i1, j1, k1), non_adjacent) := st in
  let '(i2, j2, k2) := x in
  if (i1 + k1 =? i2)%nat && (j1 + k1 =? j2)%nat
  then ((i1, j1, (k1 + k2)%nat), non_adjacent)
  else ((i2, j2, k2),
        if (k1 =? 0)%nat then non_adjacent else non_adjacent ++ [(i1, j1, k1)]).

Definition get_matching_blocks : list block :=
  let la := length a in
  let lb := length b in
  let matching_blocks :=
    merge_sort block_le (blocks_loop (2 * la + 1) [(0, la, 0, lb)] []) in
  let '((i1, j1, k1), non_adjacent) :=
    foldl collapse ((0, 0, 0), []) matching_blocks in
  let non_adjacent :=
    if (k1 =? 0)%nat then non_adjacent else non_adjacent ++ [(i1, j1, k1)] in
  non_adjacent ++ [(la, lb, 0)].

(** *** [get_opcodes] *)

Definition opcode_step (st : nat * nat * list opcode) (x : block)
    : nat * nat * list opcode :=
  let '(i, j, answer) := st in
  let '(ai, bj, size) := x in
  let answer :=
    if (i <? ai)%nat && (j <? bj)%nat then answer ++ [(Replace, i, ai, j, bj)]
    else if (i <? ai)%nat then answer ++ [(Delete, i, ai, j, bj)]
    else if (j <? bj)%nat then answer ++ [(Insert, i, ai, j, bj)]
    else answer in
  let answer :=
    if (size =? 0)%nat then answer
    else answer ++ [(Equal, ai, (ai + size)%nat, bj, (bj + size)%nat)] in
  ((ai + size)%nat, (bj + size)%nat, answer).

Definition get_opcodes : list opcode :=
  (foldl opcode_step (0, 0, []) get_matching_blocks).2.

(** *** [ratio], [quick_ratio], [real_quick_ratio] *)

Definition ratio : float :=
  calculate_ratio (foldr (λ (x : block) s, (x.2 + s)%nat) 0 get_matching_blocks)
                  (length a + length b).

Definition fullbcount : gmap A nat :=
  foldl (λ (m : gmap A nat) elt, <[elt := (default 0 (m !! elt) + 1)%nat]> m) ∅ b.

Definition quick_ratio : float :=
  let step (st : gmap A Z * nat) (elt : A) : gmap A Z * nat :=
    let numb := match st.1 !! elt with
                | Some n => n
                | None => Z.of_nat (default 0 (fullbcount !! elt))
                end in
    (<[elt := (numb - 1)%Z]> st.1,
     if (0 <? numb)%Z then (st.2 + 1)%nat else st.2) in
  calculate_ratio (foldl step (∅, 0) a).2 (length a + length b).

Definition real_quick_ratio : float :=
  calculate_ratio (length a `min` length b) (length a + length b).

End SequenceMatcher.

(** [IS_CHARACTER_JUNK(ch, ws=" \t")]. *)
Definition IS_CHARACTER_JUNK (ch : ascii) : bool :=
  bool_decide (ch ∈ [" "%char; ascii_of_nat 9]).

Definition chars (s : string) : list ascii := list_ascii_of_string s.

Definition newline : string := String (ascii_of_nat 10) EmptyString.

(** [c * n]. *)
Definition times (c : ascii) (n : nat) : string :=
  string_of_list_ascii (replicate n c).

(** [_keep_original_ws(s, tag_s)]. *)
Definition keep_original_ws (s tag_s : string) : string :=
  string_of_list_ascii
    (zip_with (λ c tag_c, if Ascii.eqb tag_c " " && isspace c then c else tag_c)
              (chars s) (chars tag_s)).

Section Differ.
Variable linejunk : option (string → bool).
Variable charjunk : option (ascii → bool).

(** [_dump(tag, x, lo, hi)]: the lines [x[lo:hi]], each behind its tag. *)
Definition dump (tag : string) (x : list string) (lo hi : nat) : list string :=
  (λ line, tag +:+ " " +:+ line) <$> take (hi - lo) (drop lo x).

Definition plain_replace (a : list string) (alo ahi : nat)
    (b : list string) (blo bhi : nat) : list string :=
  if bhi - blo <? ahi - alo
  then dump "+" b blo bhi ++ dump "-" a alo ahi
  else dump "-" a alo ahi ++ dump "+" b blo bhi.

(** [_qformat(aline, bline, atags, btags)]. *)
Definition qformat (aline bline atags btags : string) : list string :=
  let atags := rstrip (keep_original_ws aline atags) in
  let btags := rstrip (keep_original_ws bline btags) in
  ["- " +:+ aline]
  ++ (if truthy atags then ["? " +:+ atags +:+ newline] else [])
  ++ ["+ " +:+ bline]
  ++ (if truthy btags then ["? " +:+ btags +:+ newline] else []).

(** The body of the double loop of [_fancy_replace]; the state is
    [(best_ratio, (best_i, best_j), (eqi, eqj))]. *)
Definition pick (a b : list string)
    (st : float * option (nat * nat) * option (nat * nat)) (ji : nat * nat)
    : float * option (nat * nat) * option (nat * nat) :=
  let '(best_ratio, best, eq) := st in
  let '(j, i) := ji in
  match a !! i, b !! j with
  | Some ai, Some bj =>
      if bool_decide (ai = bj) then
        (best_ratio, best, match eq with None => Some (i, j) | Some _ => eq end)
      else if PrimFloat.ltb best_ratio (real_quick_ratio (chars ai) (chars bj))
              && PrimFloat.ltb best_ratio (quick_ratio (chars ai) (chars bj))
              && PrimFloat.ltb best_ratio (ratio charjunk true (chars ai) (chars bj))
      then (ratio charjunk true (chars ai) (chars bj), Some (i, j), eq)
      else st
  | _, _ => st
  end.

(** The loop over the character opcodes that builds [atags], [btags]. *)
Definition tag_step (st : string * string) (op : opcode) : string * string :=
  let '(tag, ai1, ai2, bj1, bj2) := op in
  let la := ai2 - ai1 in
  let lb := bj2 - bj1 in
  match tag with
  | Replace => (st.1 +:+ times "^" la, st.2 +:+ times "^" lb)
  | Delete => (st.1 +:+ times "-" la, st.2)
  | Insert => (st.1, st.2 +:+ times "+" lb)
  | Equal => (st.1 +:+ times " " la, st.2 +:+ times " " lb)
  end.

(** [_fancy_helper]; [replace] stands for the call of [_fancy_replace]. *)
Definition fancy_helper (replace : nat → nat → nat → nat → list string)
    (a : list string) (alo ahi : nat) (b : list string) (blo bhi : nat)
    : list string :=
  if alo <? ahi then
    if blo <? bhi then replace alo ahi blo bhi else dump "-" a alo ahi
  else if blo <? bhi then dump "+" b blo bhi
  else [].

(** What [_fancy_replace] settles on after its double loop: nothing
    ([_plain_replace] follows), or the pair of lines to synch on, with the
    mark of an identical pair.  The outer [None] stands for [best_i]
    unbound, which does not happen. *)
Definition chosen (st : float * option (nat * nat) * option (nat * nat))
    : option (option (nat * nat * bool)) :=
  let '(best_ratio, best, eq) := st in
  if PrimFloat.ltb best_ratio 0.75 then
    match eq with
    | None => Some None
    | Some (eqi, eqj) => Some (Some (eqi, eqj, true))
    end
  else
    match best with
    | Some (best_i, best_j) => Some (Some (best_i, best_j, false))
    | None => None
    end.

(** [_fancy_replace].  The branches that return nothing are those where
    Python would find [best_i] unbound or an index out of range; they are
    never taken. *)
Fixpoint fancy_replace (fuel : nat) (a : list string) (alo ahi : nat)
    (b : list string) (blo bhi : nat) : list string :=
  match fuel with
  | O => []
  | S fuel' =>
      let replace alo ahi blo bhi := fancy_replace fuel' a alo ahi b blo bhi in
      match chosen (foldl (pick a b) (0.74%float, None, None)
                      (j ← seq blo (bhi - blo); i ← seq alo (ahi - alo); [(j, i)]))
      with
      | None => []
      | Some None => plain_replace a alo ahi b blo bhi
      | Some (Some (best_i, best_j, identical)) =>
          match a !! best_i, b !! best_j with
          | Some aelt, Some belt =>
              fancy_helper replace a alo best_i b blo best_j
              ++ (if identical then ["  " +:+ aelt]
                  else
                    let '(atags, btags) :=
                      foldl tag_step ("", "")
                            (get_opcodes charjunk true (chars aelt) (chars belt)) in
                    qformat aelt belt atags btags)
              ++ fancy_helper replace a (best_i + 1) ahi b (best_j + 1) bhi
          | _, _ => []
          end
      end
  end.

(** [Differ.compare(a, b)]. *)
Definition compare (a b : list string) : list string :=
  op ← get_opcodes linejunk true a b;
  let '(tag, alo, ahi, blo, bhi) := op in
  match tag with
  | Replace => fancy_replace (ahi - alo) a alo ahi b blo bhi
  | Delete => dump "-" a alo ahi
  | Insert => dump "+" b blo bhi
  | Equal => dump " " a alo ahi
  end.

End Differ.

(** [ndiff(a, b, linejunk=None, charjunk=IS_CHARACTER_JUNK)]. *)
Definition ndiff (a b : list string) : list string :=
  compare None (Some IS_CHARACTER_JUNK) a b.

End Difflib.

(** ** What the facts about [difflib] are stated with *)

Module Matching.
Import Difflib.

Section Matching.
Context {A : Type}.
Variables a b : list A.

(** [a[i:i+k]] and [b[j:j+k]] exist and are equal, element by element. *)
Definition agree (i j k : nat) : Prop :=
∀ t, t < k → ∃ x, a !! (i + t) = Some x ∧ b !! (j + t) = Some x.

(** A block within the window [alo:ahi], [blo:bhi] whose two sides agree. *)
Definition block_in (alo ahi blo bhi : nat) (x : block) : Prop :=
let '(i, j, k) := x in
alo ≤ i ∧ i + k ≤ ahi ∧ blo ≤ j ∧ j + k ≤ bhi ∧ agree i j k.

(** An entry [j ↦ k] of [j2len] when row [i] is the next to scan. *)
Definition entry_ok (alo blo bhi i j k : nat) : Prop :=
1 ≤ k ∧ k ≤ i - alo ∧ k ≤ j + 1 - blo ∧ j < bhi ∧ agree (i - k) (j + 1 - k) k.

Definition row_ok (alo blo bhi i : nat) (j2len : gmap nat nat) : Prop :=
∀ j k, j2len !! j = Some k → entry_ok alo blo bhi i j k.

End Matching.
End Matching.

Module Blocks.
Import Difflib Matching.

Section Blocks.
Context `{Countable A}.
Variable isjunk : option (A → bool).
Variable autojunk : bool.
Variables a b : list A.

(** The blocks of a window, found by splitting it at its longest match and
    going on in the windows to the left and to the right of it, listed from
    left to right.  [d] bounds the depth. *)
Fixpoint inorder (d alo ahi blo bhi : nat) : list block :=
match d with
| O => []
| S d' =>
    let '(i, j, k) := find_longest_match isjunk autojunk a b alo ahi blo bhi in
    if k =? 0 then []
    else (if (alo <? i) && (blo <? j) then inorder d' alo i blo j else [])
         ++ (i, j, k)
         :: (if (i + k <? ahi) && (j + k <? bhi)
             then inorder d' (i + k) ahi (j + k) bhi else [])
end.

(** The same blocks in the order in which the loop of
    [get_matching_blocks] appends them. *)
Fixpoint preorder (d alo ahi blo bhi : nat) : list block :=
match d with
| O => []
| S d' =>
    let '(i, j, k) := find_longest_match isjunk autojunk a b alo ahi blo bhi in
    if k =? 0 then []
    else (i, j, k)
         :: (if (i + k <? ahi) && (j + k <? bhi)
             then preorder d' (i + k) ahi (j + k) bhi else [])
         ++ (if (alo <? i) && (blo <? j) then preorder d' alo i blo j else [])
end.

(** The number of iterations the loop spends on a window. *)
Fixpoint pops (d alo ahi blo bhi : nat) : nat :=
match d with
| O => 0
| S d' =>
    let '(i, j, k) := find_longest_match isjunk autojunk a b alo ahi blo bhi in
    if k =? 0 then 1
    else 1 + (if (i + k <? ahi) && (j + k <? bhi)
              then pops d' (i + k) ahi (j + k) bhi else 0)
           + (if (alo <? i) && (blo <? j) then pops d' alo i blo j else 0)
end.

(** Blocks in increasing order between the cursor [(i, j)] and the bound
    [(i', j')], each with agreeing sides. *)
Fixpoint chain (i j : nat) (l : list block) (i' j' : nat) : Prop :=
match l with
| [] => i ≤ i' ∧ j ≤ j'
| (ai, bj, k) :: rest =>
    i ≤ ai ∧ j ≤ bj ∧ agree a b ai bj k ∧ chain (ai + k) (bj + k) rest i' j'
end.

End Blocks.
End Blocks.

Module Opcodes.
Import Difflib Matching Blocks.

Section Opcodes.
Context {A : Type}.
Variables a b : list A.

(** Opcodes that lead from the cursor [(i, j)] to [(i', j')] without a hole,
    each of the shape its tag asks for. *)
Fixpoint tiles (i j : nat) (ops : list opcode) (i' j' : nat) : Prop :=
match ops with
| [] => i = i' ∧ j = j'
| (tag, i1, i2, j1, j2) :: rest =>
    i1 = i ∧ j1 = j ∧ i ≤ i2 ∧ j ≤ j2
    ∧ match tag with
      | Replace => i < i2 ∧ j < j2
      | Delete => i < i2 ∧ j = j2
      | Insert => i = i2 ∧ j < j2
      | Equal => i2 - i = j2 - j ∧ agree a b i j (i2 - i)
      end
    ∧ tiles i2 j2 rest i' j'
end.

(** [x[lo:hi]]. *)
Definition slice (x : list A) (lo hi : nat) : list A := take (hi - lo) (drop lo x).

End Opcodes.
End Opcodes.

Module Synch.
Import Difflib.

(** What holds of the state [(best_ratio, (best_i, best_j), (eqi, eqj))] of
    the double loop of [_fancy_replace] over [a[alo:ahi]], [b[blo:bhi]]. *)
Definition pick_ok (a b : list string) (alo ahi blo bhi : nat)
    (st : float * option (nat * nat) * option (nat * nat)) : Prop :=
let '(best_ratio, best, eq) := st in
(best = None → best_ratio = 0.74%float)
∧ (∀ i j, best = Some (i, j) →
     alo ≤ i < ahi ∧ blo ≤ j < bhi ∧ is_Some (a !! i) ∧ is_Some (b !! j))
∧ (∀ i j, eq = Some (i, j) →
     alo ≤ i < ahi ∧ blo ≤ j < bhi ∧ ∃ x, a !! i = Some x ∧ b !! j = Some x).

End Synch.


(** ** The tool *)

Module Tool.
Import PyStr.

(** The four locals of the loop in [compare_files]. *)
Record locals := Locals {
  old_lines : list string;
  new_lines : list string;
  old_line_number : nat;
  new_line_number : nat
}.

Definition locals0 : locals := Locals [] [] 1 1.

(** One iteration of [for line in diff]. *)
Definition body (st : locals) (line : string) : locals :=
  if startswith " " line then
    let formatted_line_new :=
      str (new_line_number st) +:+ " " +:+ rstrip (slice_from 2 line) in
    let formatted_line_old :=
      str (old_line_number st) +:+ " " +:+ rstrip (slice_from 2 line) in
    Locals (old_lines st ++ [formatted_line_old])
           (new_lines st ++ [formatted_line_new])
           (old_line_number st + 1)
           (new_line_number st + 1)
  else if startswith "-" line then
    Locals (old_lines st ++ [str (old_line_number st) +:+ " " +:+ rstrip (slice_from 2 line)])
           (new_lines st ++ [""])
           (old_line_number st + 1)
           (new_line_number st)
  else if startswith "+" line then
    let formatted_line_new :=
      str (new_line_number st) +:+ " " +:+ rstrip (slice_from 2 line) in
    Locals (old_lines st ++ [""])
           (new_lines st ++ [formatted_line_new])
           (old_line_number st)
           (new_line_number st + 1)
  else st.

(** The loop of [compare_files] over a delta, and its return value
    [(new_lines, old_lines)]. *)
Definition run_loop (st : locals) (diff : list string) : locals :=
  foldl body st diff.

Definition align (diff : list string) : list string * list string :=
  let st := run_loop locals0 diff in (new_lines st, old_lines st).

(** *** Console, file store and exceptions *)

Inductive exn :=
| FileNotFoundError | UnicodeDecodeError | EOFError
| ValueError | IndexError | OSError | IllegalCharacterError.

Inductive result (A : Type) :=
| Ok (x : A)
| Raise (e : exn).
Arguments Ok {A} x.
Arguments Raise {A} e.

(** Worksheet cells.  A value that is no text has no [len].  Of a cell
    the value, the fill and the alignment are kept.  The type tag that
    openpyxl derives from a text (a text that begins with [=] is tagged as a
    formula) is left out: the tool never reads it, and [cell.value] is the
    text in either case. *)
Inductive cell_value :=
| VNone
| VStr (s : string)
| VNum (z : Z).

Inductive color := FF00FF00 | FFFF0000.

Record cell := Cell {
  value : cell_value;
  fill : option color;         (* solid [PatternFill], if any *)
  centered : bool              (* [Alignment(horizontal='center')] *)
}.

(** The rows of the sheet, each the cells of columns 1, 2, ... *)
Definition worksheet : Type := list (list cell).

Record workbook := Workbook {
  title : string;
  cells : worksheet;
  column_width : list float    (* of columns A, B, C, D *)
}.

Inductive file :=
| Text (content : string)      (* what [file.read()] returns *)
| Undecodable                  (* bytes that are no text *)
| Xlsx (wb : workbook).

Inductive event :=
| Prompted (prompt : string)
| Opened (filename : string)
| Saved (filename : string)
| Printed (line : string).

Record world := World {
  stdin : list string;
  files : gmap string file;
  writable : string → bool;
  trace : list event
}.

Definition io (A : Type) : Type := world → result A * world.

#[global] Instance io_ret : MRet io := λ A x w, (Ok x, w).
#[global] Instance io_bind : MBind io := λ A B f m w,
  match m w with
  | (Ok x, w') => f x w'
  | (Raise e, w') => (Raise e, w')
  end.

#[global] Instance io_fmap : FMap io := λ A B f m w,
  match m w with
  | (Ok x, w') => (Ok (f x), w')
  | (Raise e, w') => (Raise e, w')
  end.

Definition raise {A} (e : exn) : io A := λ w, (Raise e, w).

Definition emit (ev : event) : io unit :=
  λ w, (Ok (), World (stdin w) (files w) (writable w) (trace w ++ [ev])).

(** One line of the standard input. *)
Definition readline : io string :=
  λ w, match stdin w with
       | [] => (Raise EOFError, w)
       | answer :: rest =>
           (Ok answer, World rest (files w) (writable w) (trace w))
       end.

(** [input(prompt)]. *)
Definition input (prompt : string) : io string :=
  _ ← emit (Prompted prompt); readline.

(** [print(line)]. *)
Definition print (line : string) : io unit := emit (Printed line).

(** [str.splitlines()]. *)
Definition linebreak (c : ascii) : bool :=
  bool_decide (nat_of_ascii c ∈ [10; 11; 12; 13; 28; 29; 30; 133]).

Fixpoint splitlines (s : string) : list string :=
  match s with
  | EmptyString => []
  | String c s' =>
      if linebreak c then
        match s' with
        | String c' s'' =>
            if Ascii.eqb c (ascii_of_nat 13) && Ascii.eqb c' (ascii_of_nat 10)
            then "" :: splitlines s''
            else "" :: splitlines s'
        | EmptyString => [""]
        end
      else
        match splitlines s' with
        | line :: lines => String c line :: lines
        | [] => [String c ""]
        end
  end.

(** [open(filename, 'r')] followed by [file.read()]. *)
Definition read_text (filename : string) : io string :=
  λ w, match files w !! filename with
       | None => (Raise FileNotFoundError, w)
       | Some (Text content) => (Ok content, w)
       | Some _ => (Raise UnicodeDecodeError, w)
       end.

Definition read_file (filename : string) : io (list string) :=
  _ ← emit (Opened filename);
  content ← read_text filename;
  mret (splitlines content).

(** [compare_files(new_file, old_file)]; the arguments of [ndiff] are
    evaluated from left to right, the old file is read first. *)
Definition compare_files (new_file old_file : string)
    : io (list string * list string) :=
  old ← read_file old_file;
  new ← read_file new_file;
  mret (align (Difflib.ndiff old new)).

(** *** [create_excel] *)

(** [number, content = line.split(' ', 1) if line else ('', '')]. *)
Definition split_entry (line : string) : result (string * string) :=
  if truthy line then
    match split1 " " line with
    | [number; content] => Ok (number, content)
    | _ => Raise ValueError
    end
  else Ok ("", "").

(** [ws.cell(row, column, value)] binds a text through openpyxl's
    [Cell.check_string].

    [ILLEGAL_CHARACTERS_RE], the pattern
    [[\000-\010]|[\013-\014]|[\016-\037]], on one character: the codes 0
    to 8, 11, 12 and 14 to 31. *)
Definition ILLEGAL_CHARACTERS (c : ascii) : bool :=
  let n := nat_of_ascii c in
  ((n <=? 8) || ((11 <=? n) && (n <=? 12)) || ((14 <=? n) && (n <=? 31)))%nat.

(** [next(ILLEGAL_CHARACTERS_RE.finditer(text), None)]: the pattern is
    found in [text]. *)
Fixpoint illegal (text : string) : bool :=
  match text with
  | EmptyString => false
  | String c text' => ILLEGAL_CHARACTERS c || illegal text'
  end.

(** [Cell.check_string(text)]: the text is cut to [text[:32767]]; a
    control character in what is left raises, otherwise the cut text is the
    value of the cell. *)
Definition check_string (text : string) : result string :=
  let text := slice_to 32767 text in
  if illegal text then Raise IllegalCharacterError else Ok text.

(** One iteration of the loop over [zip(new_lines, old_lines)]: the four
    cells of the row, written in the order of the four calls of [ws.cell].
    The fills are decided on the contents as they were split, not on the
    values of the cells. *)
Definition render_row (line_new line_old : string) : result (list cell) :=
  match split_entry line_new with
  | Raise e => Raise e
  | Ok (line_new_number, line_new_content) =>
      match split_entry line_old with
      | Raise e => Raise e
      | Ok (line_old_number, line_old_content) =>
          match check_string line_new_number with
          | Raise e => Raise e
          | Ok cell_new_number =>
          match check_string line_new_content with
          | Raise e => Raise e
          | Ok cell_new_content =>
          match check_string line_old_number with
          | Raise e => Raise e
          | Ok cell_old_number =>
          match check_string line_old_content with
          | Raise e => Raise e
          | Ok cell_old_content =>
              let green :=
                truthy line_new_content && negb (truthy line_old_content) in
              let red :=
                negb green
                && truthy line_old_content && negb (truthy line_new_content) in
              Ok [ Cell (VStr cell_new_number) None true;
                   Cell (VStr cell_new_content)
                        (if green then Some FF00FF00 else None) false;
                   Cell (VStr cell_old_number) None true;
                   Cell (VStr cell_old_content)
                        (if red then Some FFFF0000 else None) false ]
          end end end end
      end
  end.

Fixpoint render_rows (rows : list (string * string)) : result worksheet :=
  match rows with
  | [] => Ok []
  | (line_new, line_old) :: rest =>
      match render_row line_new line_old with
      | Raise e => Raise e
      | Ok r =>
          match render_rows rest with
          | Raise e => Raise e
          | Ok rs => Ok (r :: rs)
          end
      end
  end.

(** [ws.columns]: the cells column by column, each with its
    [cell.column]. *)
Definition max_column (ws : worksheet) : nat := max_list (length <$> ws).

Definition columns (ws : worksheet) : list (list (nat * cell)) :=
  (λ c, omap (λ row : list cell, (λ x, (c + 1, x)) <$> row !! c) ws)
    <$> seq 0 (max_column ws).

(** The body of [for cell in col], with its [try] and [except
    TypeError: continue]. *)
Definition measure (column_widths : result (list nat)) (c : nat * cell)
    : result (list nat) :=
  match column_widths with
  | Raise e => Raise e
  | Ok widths =>
      match widths !! (c.1 - 1) with
      | None => Raise IndexError
      | Some w =>
          match value c.2 with
          | VStr s => Ok (<[c.1 - 1 := w `max` String.length s]> widths)
          | _ => Ok widths
          end
      end
  end.

Definition measure_columns (ws : worksheet) : result (list nat) :=
  foldl (foldl measure) (Ok [0; 0; 0; 0]) (columns ws).

(** [width * 1.2], in binary64 as Python computes it. *)
Definition padded (width : nat) : float :=
  PrimFloat.mul (Difflib.float_of_nat width) 1.2%float.

(** The file store after the workbook is written, when the path can be
    written to. *)
Definition write_xlsx (wb : workbook) (output_file : string) : io unit :=
  λ w, if writable w output_file
       then (Ok (), World (stdin w) (<[output_file := Xlsx wb]> (files w))
                          (writable w) (trace w))
       else (Raise OSError, w).

(** [wb.save(output_file)]. *)
Definition save (wb : workbook) (output_file : string) : io unit :=
  _ ← emit (Saved output_file); write_xlsx wb output_file.

Definition of_result {A} (r : result A) : io A :=
  match r with Ok x => mret x | Raise e => raise e end.

Definition create_excel (new_lines old_lines : list string) (output_file : string)
    : io unit :=
  ws ← of_result (render_rows (zip new_lines old_lines));
  column_widths ← of_result (measure_columns ws);
  save (Workbook "File Comparison" ws (padded <$> column_widths)) output_file.

(** *** [main] *)

Definition quote : ascii := ascii_of_nat 34.

Definition main : io unit :=
  new_file ← strip_char quote <$> input "Enter the path of the new file: ";
  old_file ← strip_char quote <$> input "Enter the path of the old file: ";
  output_file ← input "Enter the output Excel file name: ";
  lines ← compare_files new_file old_file;
  _ ← create_excel lines.1 lines.2 output_file;
  print ("Comparison Excel file '" +:+ output_file +:+ "' created successfully.").

End Tool.

(** ** The aligned rows of the data model

    The edit script and its expansion as the design describes them, to be
    compared with the loop of [compare_files]. *)

Module Rows.
Import PyStr.

(** An edit operation with the text it carries. *)
Inductive op :=
| Unchanged (text : string)
| Deleted (text : string)
| Inserted (text : string).

(** One side of an aligned row: a gap, or a line number with its text. *)
Definition entry : Type := option (nat * string).

Definition gap : entry := None.

(** The string that stands for an entry in the lists [compare_files]
    returns. *)
Definition show (e : entry) : string :=
  match e with
  | None => ""
  | Some (number, text) => str number +:+ " " +:+ text
  end.

(** The operation a delta line stands for, by its first character. *)
Definition classify (line : string) : option op :=
  if startswith " " line then Some (Unchanged (slice_from 2 line))
  else if startswith "-" line then Some (Deleted (slice_from 2 line))
  else if startswith "+" line then Some (Inserted (slice_from 2 line))
  else None.

Definition script (diff : list string) : list op := omap classify diff.

(** The expansion of one operation at the counters
    [(oldLineNumber, newLineNumber)]: the row [(new_entry, old_entry)]. *)
Definition row_of (oldLineNumber newLineNumber : nat) (o : op) : entry * entry :=
  match o with
  | Unchanged text =>
      (Some (newLineNumber, rstrip text), Some (oldLineNumber, rstrip text))
  | Deleted text => (gap, Some (oldLineNumber, rstrip text))
  | Inserted text => (Some (newLineNumber, rstrip text), gap)
  end.

(** The counters after one operation. *)
Definition advance (oldLineNumber newLineNumber : nat) (o : op) : nat * nat :=
  match o with
  | Unchanged _ => (oldLineNumber + 1, newLineNumber + 1)
  | Deleted _ => (oldLineNumber + 1, newLineNumber)
  | Inserted _ => (oldLineNumber, newLineNumber + 1)
  end.

(** The expansion rule, in edit-script order. *)
Fixpoint expand (oldLineNumber newLineNumber : nat) (ops : list op)
    : list (entry * entry) :=
  match ops with
  | [] => []
  | o :: rest =>
      row_of oldLineNumber newLineNumber o
      :: expand (advance oldLineNumber newLineNumber o).1
                (advance oldLineNumber newLineNumber o).2 rest
  end.

Definition is_unchanged (o : op) : bool :=
  match o with Unchanged _ => true | _ => false end.
Definition is_deleted (o : op) : bool :=
  match o with Deleted _ => true | _ => false end.
Definition is_inserted (o : op) : bool :=
  match o with Inserted _ => true | _ => false end.

Definition count (p : op → bool) (ops : list op) : nat :=
  length (filter (λ o, p o = true) ops).

(** The line an operation contributes to the new file, and to the old. *)
Definition new_text (o : op) : option string :=
match o with Unchanged t | Inserted t => Some t | Deleted _ => None end.

Definition old_text (o : op) : option string :=
match o with Unchanged t | Deleted t => Some t | Inserted _ => None end.

(** The entries of a file whose lines are [lines], numbered from [first]. *)
Definition numbered (first : nat) (lines : list string) : list string :=
imap (λ i line, show (Some (first + i, rstrip line))) lines.

End Rows.

(** ** The rendered report

    Predicates on a row of the worksheet and on the accesses to the file
    store, and sample runs. *)

Module Report.
Import PyStr Tool.

(** The text of a cell; a cell without text has none. *)
Definition text_of (c : cell) : option string :=
match value c with VStr s => Some s | _ => None end.

(** A row of the report: the four cells in their fixed order, with the
    fills of the two content cells. *)
Definition report_row (new_number new_content old_number old_content : string)
  (new_fill old_fill : option color) : list cell :=
[ Cell (VStr new_number) None true;
  Cell (VStr new_content) new_fill false;
  Cell (VStr old_number) None true;
  Cell (VStr old_content) old_fill false ].

(** The highlight rule for one row: green marks added, red marks
    removed. *)
Definition highlight_exact (row : list cell) : Prop :=
∃ new_number new_content old_number old_content new_fill old_fill,
  row = report_row new_number new_content old_number old_content new_fill old_fill
  ∧ (new_fill = Some FF00FF00 ↔ new_content ≠ "" ∧ old_content = "")
  ∧ (old_fill = Some FFFF0000 ↔ old_content ≠ "" ∧ new_content = "")
  ∧ (new_fill = None ∨ new_fill = Some FF00FF00)
  ∧ (old_fill = None ∨ old_fill = Some FFFF0000)
  ∧ (new_fill = None ∨ old_fill = None).

(** The width of column [c] (from 0) that the text cells ask for; cells
    without text are left out. *)
Definition text_width (ws : worksheet) (c : nat) : nat :=
max_list (omap (λ row : list cell, String.length <$> (row !! c ≫= text_of)) ws).

(** The accesses to the file store among the events of a run. *)
Definition is_access (ev : event) : bool :=
match ev with Opened _ | Saved _ => true | _ => false end.

Definition accesses (evs : list event) : list event :=
filter (λ ev, is_access ev = true) evs.

(** The world after the events [evs]. *)
Definition log (w : world) (evs : list event) : world :=
World (stdin w) (files w) (writable w) (trace w ++ evs).

(** The three prompts of [main], in their order. *)
Definition prompts : list event :=
[ Prompted "Enter the path of the new file: ";
  Prompted "Enter the path of the old file: ";
  Prompted "Enter the output Excel file name: " ].

(** [path] can be read as text. *)
Definition readable (w : world) (path : string) : Prop :=
∃ content, files w !! path = Some (Text content).

(** The non-gap entries of a list [compare_files] returns. *)
Definition non_gap (entries : list string) : list string :=
filter (λ e, truthy e = true) entries.

(** A path between double quotes, as a file manager copies it. *)
Definition quoted (path : string) : string :=
String quote (path +:+ String quote "").

Definition lines_of (lines : list string) : string :=
foldr (λ line rest, line +:+ Difflib.newline +:+ rest) "" lines.

(** A run on two three-line files, with every path given in quotes. *)
Definition sample_world : world :=
World [quoted "new.txt"; quoted "old.txt"; quoted "out.xlsx"]
      {[ "new.txt" := Text (lines_of ["a"; "x"; "c"]);
         "old.txt" := Text (lines_of ["a"; "b"; "c"]) ]}
      (λ _, true) [].

(** A run whose old file is missing. *)
Definition sample_world_missing : world :=
World ["new.txt"; "old.txt"; "out.xlsx"]
      {[ "new.txt" := Text (lines_of ["a"; "x"; "c"]) ]}
      (λ _, true) [].

(** A sheet with cells that hold no text. *)
Definition sample_sheet : worksheet :=
[ [ Cell (VStr "12") None true; Cell VNone None false;
    Cell (VNum 7) None true; Cell (VStr "abcd") None false ];
  [ Cell (VStr "1") None true; Cell (VStr "ab") None false;
    Cell VNone None true; Cell (VNum 12345) None false ] ].

End Report.

(** ** Further predicates on lines, rows and entries *)

Module Cases.
Import PyStr Tool Rows Report.

(** No character of [s] ends a line. *)
Fixpoint no_linebreak (s : string) : Prop :=
  match s with
  | EmptyString => True
  | String c s' => linebreak c = false ∧ no_linebreak s'
  end.

(** An entry that [create_excel] cannot split: not empty, and without a
    blank. *)
Definition malformed (entry : string) : Prop := entry ≠ "" ∧ lacks " " entry.

(** [entry] is cut at its first blank into [number] and [content]; the
    empty entry gives two empty strings. *)
Definition splits (entry number content : string) : Prop :=
  (entry = "" ∧ number = "" ∧ content = "")
  ∨ (entry = number +:+ " " +:+ content ∧ lacks " " number).

(** The text a cell keeps of [s]: its first 32767 characters. *)
Definition kept (s : string) : string := slice_to 32767 s.

(** The control characters a worksheet refuses: every code below 32 but
    tab, line feed and carriage return. *)
Definition control (c : ascii) : bool :=
  bool_decide (nat_of_ascii c < 32 ∧ nat_of_ascii c ∉ [9; 10; 13]).

Fixpoint plain (s : string) : bool :=
  match s with
  | EmptyString => true
  | String c s' => negb (control c) && plain s'
  end.

(** [s] can be written to a cell: what the cell keeps of it holds no
    control character. *)
Definition storable (s : string) : bool := plain (kept s).

(** A row of the sheet beside the pair of entries it is made from: the
    cells hold what is kept of the two numbers and the two contents, and the
    fills follow the contents. *)
Definition row_renders (lines : string * string) (row : list cell) : Prop :=
  ∃ new_number new_content old_number old_content new_fill old_fill,
    splits lines.1 new_number new_content
    ∧ splits lines.2 old_number old_content
    ∧ row = report_row (kept new_number) (kept new_content)
                       (kept old_number) (kept old_content) new_fill old_fill
    ∧ (new_fill = Some FF00FF00 ↔ new_content ≠ "" ∧ old_content = "")
    ∧ (old_fill = Some FFFF0000 ↔ old_content ≠ "" ∧ new_content = "")
    ∧ (new_fill = None ∨ new_fill = Some FF00FF00)
    ∧ (old_fill = None ∨ old_fill = Some FFFF0000)
    ∧ (new_fill = None ∨ old_fill = None).

(** An entry that [create_excel] can write: it splits, and its two parts
    can be written to their cells. *)
Definition fits (entry : string) : Prop :=
  ∃ number content,
    splits entry number content
    ∧ storable number = true ∧ storable content = true.


(** The three shapes of a row over the files [old] and [new]: an equal line
    of both at its two numbers, a line of [new] beside a gap, a gap beside a
    line of [old].  Positions count from 0, line numbers from 1. *)
Definition row_shows (old new : list string) (row : string * string) : Prop :=
  (∃ i j line, new !! i = Some line ∧ old !! j = Some line
     ∧ row = (str (1 + i) +:+ " " +:+ rstrip line,
              str (1 + j) +:+ " " +:+ rstrip line))
  ∨ (∃ i line, new !! i = Some line
       ∧ row = (str (1 + i) +:+ " " +:+ rstrip line, ""))
  ∨ (∃ j line, old !! j = Some line
       ∧ row = ("", str (1 + j) +:+ " " +:+ rstrip line)).

(** One row of an expansion, over the lines its script gives to each
    side. *)
Definition entry_shows (o n : nat) (olds news : list string)
    (r : entry * entry) : Prop :=
  (∃ i j t, news !! i = Some t ∧ olds !! j = Some t
     ∧ r = (Some (n + i, rstrip t), Some (o + j, rstrip t)))
  ∨ (∃ i t, news !! i = Some t ∧ r = (Some (n + i, rstrip t), None))
  ∨ (∃ j t, olds !! j = Some t ∧ r = (None, Some (o + j, rstrip t))).

End Cases.

(** ** Matching a sequence against itself *)

Module Diagonal.
Import Difflib.

Section Diagonal.
Context `{Countable A}.
Variable autojunk : bool.
Variable a : list A.

(** The places of [x] in [l], counted from [k], in increasing order. *)
Fixpoint positions_from (k : nat) (l : list A) (x : A) : list nat :=
  match l with
  | [] => []
  | y :: l' =>
      (if decide (y = x) then [k] else []) ++ positions_from (S k) l' x
  end.

(** What [setdefault] and [append] make of an entry of [b2j] and further
    places. *)
Definition extended (o : option (list nat)) (p : list nat) : option (list nat) :=
  match o with
  | Some d => Some (d ++ p)
  | None => match p with [] => None | _ => Some p end
  end.

(** [x] has kept its entry in [b2j]. *)
Definition present (x : A) : bool :=
  bool_decide (is_Some (b2j None autojunk a !! x)).

(** The length of the run of present elements of [a] that ends at [r]. *)
Fixpoint run (r : nat) : nat :=
  match r with
  | O => match a !! 0 with
         | Some x => if present x then 1 else 0
         | None => 0
         end
  | S r' => match a !! S r' with
            | Some x => if present x then S (run r') else 0
            | None => 0
            end
  end.

(** What [scan] knows of [j2len] before row [i]: an entry is no longer
    than the run ending in its column and than the run ending in the row
    before, and the diagonal entry is that run. *)
Definition cols_done (i : nat) (j2len : gmap nat nat) : Prop :=
  (∀ j k, j2len !! j = Some k → k ≤ run j ∧ ∃ i', i = S i' ∧ k ≤ run i') ∧
  (∀ i', i = S i' → 0 < run i' → j2len !! i' = Some (run i')).

(** The best block before row [i] lies on the diagonal and is at least
    as long as every run met so far. *)
Definition best_done (i : nat) (bst : block) : Prop :=
  bst.1.1 = bst.1.2 ∧ bst.1.1 + bst.2 ≤ i ∧ ∀ r, r < i → run r ≤ bst.2.

(** The state within row [i], with the columns [js] still to come. *)
Definition row_part (i : nat) (js : list nat) (new : gmap nat nat)
    (bst : block) : Prop :=
  (∀ j k, new !! j = Some k → k ≤ run j ∧ k ≤ run i) ∧
  bst.1.1 = bst.1.2 ∧ bst.1.1 + bst.2 ≤ S i ∧
  (∀ r, r < i → run r ≤ bst.2) ∧
  (i ∈ js ∨ (Forall (lt i) js ∧ run i ≤ bst.2 ∧ new !! i = Some (run i))).

End Diagonal.
End Diagonal.

(** ** Further sample runs *)

Module Samples.
Import PyStr Tool Report.

(** A run that is given only the first of its three answers. *)
Definition sample_world_short : world :=
World ["new.txt"]
      {[ "new.txt" := Text (lines_of ["a"; "x"; "c"]);
         "old.txt" := Text (lines_of ["a"; "b"; "c"]) ]}
      (λ _, true) [].



End Samples.

(** * Facts *)

(** ** Strings *)

Section StringFacts.
Import PyStr.

Lemma append_cons (c : ascii) (s t : string) :
  String c s +:+ t = String c (s +:+ t).
Proof. reflexivity. Qed.

Lemma append_nil_l (s : string) : "" +:+ s = s.
Proof. reflexivity. Qed.

Lemma append_nil_r (s : string) : s +:+ "" = s.
Proof.
  induction s as [|c s IH]; [done|]. by rewrite append_cons, IH.
Qed.

Lemma append_assoc (s t u : string) : (s +:+ t) +:+ u = s +:+ (t +:+ u).
Proof.
  induction s as [|c s IH]; [done|]. by rewrite !append_cons, IH.
Qed.

Lemma truthy_true (s : string) : truthy s = true ↔ s ≠ "".
Proof. destruct s; simpl; split; congruence. Qed.

Lemma truthy_false (s : string) : truthy s = false ↔ s = "".
Proof. destruct s; simpl; split; congruence. Qed.

Lemma split1_first (sep : ascii) (s t : string) :
  lacks sep s → split1 sep (s +:+ String sep t) = [s; t].
Proof.
  induction s as [|c s IH].
  - intros _. rewrite append_nil_l. simpl. by rewrite Ascii.eqb_refl.
  - intros [Hc Hs]. rewrite append_cons. simpl.
    destruct (Ascii.eqb_spec c sep) as [->|_]; [done|].
    by rewrite IH.
Qed.

Lemma digits_lack_space (d : Decimal.uint) :
  lacks " " (NilEmpty.string_of_uint d).
Proof. induction d; simpl; auto; split; auto; discriminate. Qed.

Lemma str_lacks_space (n : nat) : lacks " " (str n).
Proof. apply digits_lack_space. Qed.

End StringFacts.

(** ** The loop of [compare_files] *)

Section LoopFacts.
Import PyStr Tool Rows.

Lemma body_classify (st : locals) (line : string) :
  body st line =
  match classify line with
  | None => st
  | Some o =>
      let row := row_of (old_line_number st) (new_line_number st) o in
      let next := advance (old_line_number st) (new_line_number st) o in
      Locals (old_lines st ++ [show row.2]) (new_lines st ++ [show row.1])
             next.1 next.2
  end.
Proof.
  unfold body, classify.
  destruct (startswith " " line); [done|].
  destruct (startswith "-" line); [done|].
  destruct (startswith "+" line); [done|].
  by destruct st.
Qed.

Lemma run_loop_expand (diff : list string) (st : locals) :
  let rows := expand (old_line_number st) (new_line_number st) (script diff) in
  old_lines (run_loop st diff) = old_lines st ++ (show ∘ snd <$> rows)
  ∧ new_lines (run_loop st diff) = new_lines st ++ (show ∘ fst <$> rows).
Proof.
  revert st. induction diff as [|line diff IH]; intros st; simpl.
  - by rewrite !app_nil_r.
  - unfold run_loop in *. simpl. unfold script. simpl.
    rewrite body_classify. destruct (classify line) as [o|]; simpl.
    + destruct (IH (Locals (old_lines st ++ [show (row_of (old_line_number st) (new_line_number st) o).2])
                           (new_lines st ++ [show (row_of (old_line_number st) (new_line_number st) o).1])
                           (advance (old_line_number st) (new_line_number st) o).1
                           (advance (old_line_number st) (new_line_number st) o).2))
        as [-> ->].
      simpl. by rewrite <- !app_assoc.
    + apply IH.
Qed.

Lemma align_expand (diff : list string) :
  align diff = (show ∘ fst <$> expand 1 1 (script diff),
                show ∘ snd <$> expand 1 1 (script diff)).
Proof.
  unfold align. destruct (run_loop_expand diff locals0) as [Ho Hn].
  by rewrite Ho, Hn.
Qed.

Lemma expand_length (ops : list op) (o n : nat) :
  length (expand o n ops) = length ops.
Proof. revert o n. induction ops as [|x ops IH]; intros; simpl; auto. Qed.

End LoopFacts.

Section RowFacts.
Import PyStr Tool Rows.

Lemma split_entry_show (number : nat) (text : string) :
  split_entry (show (Some (number, text))) = Ok (str number, text).
Proof.
  unfold split_entry, show.
  assert (Hs : split1 " " (str number +:+ " " +:+ text) = [str number; text]).
  { apply (split1_first " " (str number) text), str_lacks_space. }
  rewrite Hs.
  destruct (str number +:+ " " +:+ text) eqn:E; [|done].
  destruct (str number); discriminate.
Qed.

Lemma show_some_truthy (number : nat) (text : string) :
  truthy (show (Some (number, text))) = true.
Proof. simpl. destruct (str number); reflexivity. Qed.

Lemma count_total (ops : list op) :
  length ops
  = count is_unchanged ops + count is_deleted ops + count is_inserted ops.
Proof.
  unfold count. induction ops as [|[t|t|t] ops IH]; simpl; [done|..];
    repeat (rewrite filter_cons; simpl); repeat case_decide;
    try discriminate; try congruence; simpl; lia.
Qed.

Lemma expand_one_per_op (ops : list op) (o n : nat) :
  Forall2 (λ x row, ∃ o' n', row = row_of o' n' x) ops (expand o n ops).
Proof.
  revert o n. induction ops as [|x ops IH]; intros o n; simpl;
    constructor; eauto.
Qed.

Lemma zip_fmap_fst_snd {A B C} (f : A → B) (g : A → C) (l : list A) :
  zip (f <$> l) (g <$> l) = (λ x, (f x, g x)) <$> l.
Proof. induction l as [|x l IH]; csimpl; [done | by rewrite IH]. Qed.

Lemma run_loop_app (d1 d2 : list string) (st : locals) :
  run_loop st (d1 ++ d2) = run_loop (run_loop st d1) d2.
Proof. apply foldl_app. Qed.

End RowFacts.

(** ** Deltas and edit scripts *)

Section DeltaFacts.
Import PyStr Tool Rows Report Delta.

Lemma coded_inv (line : string) :
  coded line →
  ∃ c rest, line = String c (String " " rest)
            ∧ (c = " "%char ∨ c = "-"%char ∨ c = "+"%char ∨ c = "?"%char).
Proof.
  unfold coded. destruct line as [|c [|d rest]]; simpl.
  - intros H. repeat (apply elem_of_cons in H as [H|H]; [discriminate|]).
    by apply elem_of_nil in H.
  - intros H. repeat (apply elem_of_cons in H as [H|H]; [discriminate|]).
    by apply elem_of_nil in H.
  - intros H. exists c, rest.
    repeat (apply elem_of_cons in H as [H|H]; [simplify_eq; auto|]).
    by apply elem_of_nil in H.
Qed.

Lemma restore_cons (line : string) (diff : list string) (w : which) :
  restore (line :: diff) w
  = if bool_decide (slice_to 2 line ∈ ["  "; tag w])
    then slice_from 2 line :: restore diff w
    else restore diff w.
Proof.
  unfold restore. rewrite filter_cons.
  destruct (bool_decide (slice_to 2 line ∈ ["  "; tag w])); by case_decide.
Qed.

Lemma script_cons (line : string) (diff : list string) :
  script (line :: diff)
  = match classify line with
    | Some o => o :: script diff
    | None => script diff
    end.
Proof. unfold script. simpl. by destruct (classify line). Qed.

Local Ltac evaluate_line :=
  repeat match goal with
         | |- context [bool_decide ?P] =>
             let b := eval vm_compute in (bool_decide P) in
             change (bool_decide P) with b
         | |- context [classify ?l] =>
             let r := eval vm_compute in (classify l) in
             change (classify l) with r
         end;
  cbn [slice_from].

(** On a well-coded delta, [restore] reads the two files off the edit
    script. *)
Lemma restore_script (diff : list string) :
  Forall coded diff →
  restore diff File1 = omap old_text (script diff)
  ∧ restore diff File2 = omap new_text (script diff).
Proof.
  induction 1 as [|line diff Hline _ [IH1 IH2]]; [done|].
  destruct (coded_inv line Hline) as (c & rest & -> & Hc).
  rewrite !restore_cons, script_cons, IH1, IH2. unfold tag.
  destruct Hc as [-> | [-> | [-> | ->]]]; evaluate_line; done.
Qed.

Lemma non_gap_show_cons (e : entry) (l : list string) :
  non_gap (show e :: l)
  = match e with
    | Some _ => show e :: non_gap l
    | None => non_gap l
    end.
Proof.
  unfold non_gap. rewrite filter_cons.
  destruct e as [[n t]|].
  - rewrite show_some_truthy. by case_decide.
  - reflexivity.
Qed.

Lemma numbered_cons (first : nat) (line : string) (lines : list string) :
  numbered first (line :: lines)
  = show (Some (first, rstrip line)) :: numbered (first + 1) lines.
Proof.
  unfold numbered. rewrite imap_cons, Nat.add_0_r. f_equal.
  apply imap_ext. intros i x _. simpl. by rewrite Nat.add_succ_r, Nat.add_1_r.
Qed.

(** The non-gap entries of each side of an expansion are the numbered
    lines of that side. *)
Lemma expand_sides (ops : list op) (o n : nat) :
  non_gap (show <$> (fst <$> expand o n ops)) = numbered n (omap new_text ops)
  ∧ non_gap (show <$> (snd <$> expand o n ops)) = numbered o (omap old_text ops).
Proof.
  revert o n. induction ops as [|x ops IH]; intros o n; [done|].
  cbn [expand]. rewrite !fmap_cons, !non_gap_show_cons.
  destruct x as [t|t|t]; cbn [row_of advance fst snd gap omap list_omap
                             new_text old_text];
    rewrite ?numbered_cons;
    destruct (IH (o + 1) (n + 1)) as [-> ->] || idtac;
    try destruct (IH (o + 1) n) as [-> ->];
    try destruct (IH o (n + 1)) as [-> ->]; done.
Qed.

Lemma align_sides (old new diff : list string) :
  delta_of old new diff →
  non_gap (align diff).1 = numbered 1 new
  ∧ non_gap (align diff).2 = numbered 1 old.
Proof.
  intros (Hcoded & Hold & Hnew).
  destruct (restore_script diff Hcoded) as [H1 H2].
  rewrite align_expand. cbn [fst snd].
  rewrite !list_fmap_compose.
  destruct (expand_sides (script diff) 1 1) as [-> ->].
  by rewrite <- H1, <- H2, Hold, Hnew.
Qed.

End DeltaFacts.

(** ** Properties of [compare_files] *)

Section CompareFiles.
Import PyStr Tool Rows.

(** C4: [compare_files] keeps two line counters that both start at 1 and
    expands the delta in order.  A line that starts with a blank appends
    the entry [(number, text)] to both lists, each with its own counter,
    and increments both counters; a line that starts with [-] appends
    [(old_line_number, text)] to the old list and a gap to the new list and
    increments only the old counter; a line that starts with [+] appends
    [(new_line_number, text)] to the new list and a gap to the old list and
    increments only the new counter.  The whole result is the expansion
    [expand 1 1] of the edit script, and the renderer reads each entry
    back as its number and text. *)
Theorem compare_files_expansion_rule
    (diff : list string) (st : locals) (c : ascii) (text : string) (k : nat) :
  (old_line_number locals0, new_line_number locals0) = (1, 1)
  ∧ align diff = (show ∘ fst <$> expand 1 1 (script diff),
                  show ∘ snd <$> expand 1 1 (script diff))
  ∧ body st (String " " (String c text))
    = Locals (old_lines st ++ [show (Some (old_line_number st, rstrip text))])
             (new_lines st ++ [show (Some (new_line_number st, rstrip text))])
             (old_line_number st + 1) (new_line_number st + 1)
  ∧ body st (String "-" (String c text))
    = Locals (old_lines st ++ [show (Some (old_line_number st, rstrip text))])
             (new_lines st ++ [show gap])
             (old_line_number st + 1) (new_line_number st)
  ∧ body st (String "+" (String c text))
    = Locals (old_lines st ++ [show gap])
             (new_lines st ++ [show (Some (new_line_number st, rstrip text))])
             (old_line_number st) (new_line_number st + 1)
  ∧ split_entry (show (Some (k, text))) = Ok (str k, text)
  ∧ split_entry (show gap) = Ok ("", "").
Proof.
  split; [reflexivity|]. split; [apply align_expand|].
  repeat split; try reflexivity. apply split_entry_show.
Qed.

(** C2: the number of rows [compare_files] returns is the number of
    unchanged operations plus the number of deleted operations plus the
    number of inserted operations of the edit script, and the rows are, in
    order, the expansions of the single operations: no row merges two. *)
Theorem compare_files_row_count (diff : list string) :
  let rows := zip (align diff).1 (align diff).2 in
  length rows
  = count is_unchanged (script diff) + count is_deleted (script diff)
    + count is_inserted (script diff)
  ∧ Forall2 (λ o row, ∃ oldLineNumber newLineNumber,
               row = (show (row_of oldLineNumber newLineNumber o).1,
                      show (row_of oldLineNumber newLineNumber o).2))
            (script diff) rows.
Proof.
  cbv zeta. rewrite align_expand. cbn [fst snd].
  rewrite (zip_fmap_fst_snd (show ∘ fst) (show ∘ snd)). split.
  - by rewrite length_fmap, expand_length, count_total.
  - apply Forall2_fmap_r.
    eapply Forall2_impl; [apply expand_one_per_op|].
    intros o row (o' & n' & ->). by exists o', n'.
Qed.

(** C9: the two lists [compare_files] returns have the same length, so
    the [zip] of the renderer drops nothing.  Every line of the delta that
    starts with a blank, [-] or [+] appends one element to each list; every
    other line, such as the [? ] hint lines, appends to neither. *)
Theorem compare_files_lists_same_length
    (diff : list string) (st : locals) (line hint : string) :
  let handled :=
    startswith " " line || startswith "-" line || startswith "+" line in
  length (align diff).1 = length (align diff).2
  ∧ length (zip (align diff).1 (align diff).2) = length (align diff).1
  ∧ length (new_lines (body st line))
    = length (new_lines st) + (if handled then 1 else 0)
  ∧ length (old_lines (body st line))
    = length (old_lines st) + (if handled then 1 else 0)
  ∧ body st ("? " +:+ hint) = st.
Proof.
  cbv zeta. rewrite align_expand. cbn [fst snd].
  rewrite (zip_fmap_fst_snd (show ∘ fst) (show ∘ snd)), !length_fmap.
  split; [done|]. split; [done|].
  change ("? " +:+ hint) with (String "?" (String " " hint)).
  assert (Hhint : classify (String "?" (String " " hint)) = None) by done.
  rewrite (body_classify st (String "?" (String " " hint))), Hhint.
  unfold body.
  destruct (startswith " " line), (startswith "-" line), (startswith "+" line);
    simpl; rewrite ?length_app; simpl; repeat split; try lia; by destruct st.
Qed.

End CompareFiles.

(** ** Running the monad *)

Section Running.
Import Tool.

Lemma run_bind {A B} (m : io A) (f : A → io B) (w : world) :
  (m ≫= f) w
  = match m w with
    | (Ok x, w') => f x w'
    | (Raise e, w') => (Raise e, w')
    end.
Proof. reflexivity. Qed.

Lemma run_fmap {A B} (f : A → B) (m : io A) (w : world) :
  (f <$> m) w
  = match m w with
    | (Ok x, w') => (Ok (f x), w')
    | (Raise e, w') => (Raise e, w')
    end.
Proof. reflexivity. Qed.

Lemma run_ret {A} (x : A) (w : world) : (mret x : io A) w = (Ok x, w).
Proof. reflexivity. Qed.

Lemma run_of_result {A} (r : result A) (w : world) :
  of_result r w = (r, w).
Proof. by destruct r. Qed.

End Running.

Ltac io_run :=
  repeat (rewrite ?run_bind, ?run_fmap, ?run_ret, ?run_of_result;
          cbn [fst snd Tool.stdin Tool.files Tool.writable Tool.trace]).

(** ** Properties of [create_excel] *)

Section CreateExcel.
Import PyStr Tool Rows Report Cases.

(** *** Writing a cell *)

Lemma ILLEGAL_CHARACTERS_control (c : ascii) : ILLEGAL_CHARACTERS c = control c.
Proof. destruct c as [[] [] [] [] [] [] [] []]; vm_compute; reflexivity. Qed.

Lemma illegal_plain (s : string) : illegal s = negb (plain s).
Proof.
  induction s as [|c s IH]; [done|]. cbn [illegal plain].
  rewrite ILLEGAL_CHARACTERS_control, IH. by destruct (control c), (plain s).
Qed.

Lemma check_string_storable (s : string) :
  check_string s
  = if storable s then Ok (kept s) else Raise IllegalCharacterError.
Proof.
  unfold check_string, storable, kept. cbv zeta. rewrite illegal_plain.
  by destruct (plain _).
Qed.

Lemma plain_slice_to (n : nat) :
  ∀ s, plain s = true → plain (slice_to n s) = true.
Proof.
  induction n as [|n IH]; intros [|c s]; try done. cbn [slice_to plain].
  intros [Hc Hs]%andb_prop. by rewrite Hc, IH.
Qed.

Lemma digits_plain (d : Decimal.uint) : plain (NilEmpty.string_of_uint d) = true.
Proof. induction d; simpl; auto. Qed.

Lemma storable_str (n : nat) : storable (str n) = true.
Proof. apply plain_slice_to, digits_plain. Qed.

Lemma storable_empty : storable "" = true.
Proof. reflexivity. Qed.

Lemma kept_empty : kept "" = "".
Proof. reflexivity. Qed.

Lemma truthy_kept (s : string) : truthy (kept s) = truthy s.
Proof. by destruct s. Qed.

(** *** Splitting an entry *)

Lemma split1_two (sep : ascii) (s : string) :
  ∀ a b, split1 sep s = [a; b] → s = a +:+ String sep b ∧ lacks sep a.
Proof.
  induction s as [|c s IH]; intros a b; cbn [split1]; [discriminate|].
  destruct (Ascii.eqb_spec c sep) as [->|Hne].
  - by intros [= <- <-].
  - destruct (split1 sep s) as [|hd tl]; [discriminate|].
    intros [= <- ->]. destruct (IH hd b eq_refl) as [-> Hl].
    by rewrite append_cons.
Qed.

Lemma split_entry_splits (entry number content : string) :
  split_entry entry = Ok (number, content) ↔ splits entry number content.
Proof.
  unfold split_entry, splits. split.
  - destruct entry as [|c entry]; cbn [truthy].
    + intros [= <- <-]. by left.
    + destruct (split1 " " (String c entry)) as [|x [|y [|z l]]] eqn:E;
        try discriminate.
      intros [= <- <-]. right. by apply split1_two.
  - intros [(-> & -> & ->)|[-> Hl]]; [done|].
    assert (Hs : split1 " " (number +:+ " " +:+ content) = [number; content])
      by apply (split1_first " " number content Hl).
    rewrite Hs. by destruct number.
Qed.

(** *** One row *)

Lemma render_row_run (line_new line_old nn nc on oc : string) :
  split_entry line_new = Ok (nn, nc) → split_entry line_old = Ok (on, oc) →
  render_row line_new line_old
  = if storable nn && storable nc && storable on && storable oc
    then Ok (report_row (kept nn) (kept nc) (kept on) (kept oc)
               (if truthy nc && negb (truthy oc) then Some FF00FF00 else None)
               (if truthy oc && negb (truthy nc) then Some FFFF0000 else None))
    else Raise IllegalCharacterError.
Proof.
  intros Hn Ho. unfold render_row. rewrite Hn, Ho, !check_string_storable.
  destruct (storable nn), (storable nc), (storable on), (storable oc);
    try reflexivity.
  unfold report_row. by destruct (truthy nc), (truthy oc).
Qed.

Lemma render_row_exact (line_new line_old : string) (row : list cell) :
  render_row line_new line_old = Ok row →
  ∃ nn nc on oc,
    split_entry line_new = Ok (nn, nc) ∧ split_entry line_old = Ok (on, oc)
    ∧ storable nn && storable nc && storable on && storable oc = true
    ∧ row = report_row (kept nn) (kept nc) (kept on) (kept oc)
              (if truthy nc && negb (truthy oc) then Some FF00FF00 else None)
              (if truthy oc && negb (truthy nc) then Some FFFF0000 else None).
Proof.
  destruct (split_entry line_new) as [[nn nc]|e] eqn:Hn;
    [|unfold render_row; by rewrite Hn].
  destruct (split_entry line_old) as [[on oc]|e] eqn:Ho;
    [|unfold render_row; by rewrite Hn, Ho].
  rewrite (render_row_run _ _ _ _ _ _ Hn Ho).
  destruct (_ && _) eqn:Hs; [|discriminate].
  intros [= <-]. by exists nn, nc, on, oc.
Qed.

Lemma fills_exact (nc oc : string) :
  let new_fill := if truthy nc && negb (truthy oc) then Some FF00FF00 else None in
  let old_fill := if truthy oc && negb (truthy nc) then Some FFFF0000 else None in
  (new_fill = Some FF00FF00 ↔ nc ≠ "" ∧ oc = "")
  ∧ (old_fill = Some FFFF0000 ↔ oc ≠ "" ∧ nc = "")
  ∧ (new_fill = None ∨ new_fill = Some FF00FF00)
  ∧ (old_fill = None ∨ old_fill = Some FFFF0000)
  ∧ (new_fill = None ∨ old_fill = None).
Proof.
  destruct nc, oc; simpl; repeat split; auto; try congruence;
    try (intros [? ?]; congruence).
Qed.

Lemma render_row_highlight (line_new line_old : string) (row : list cell) :
  render_row line_new line_old = Ok row → highlight_exact row.
Proof.
  intros (nn & nc & on & oc & _ & _ & _ & ->)%render_row_exact.
  eexists (kept nn), (kept nc), (kept on), (kept oc), _, _.
  split; [reflexivity|].
  rewrite <- (truthy_kept nc), <- (truthy_kept oc). apply fills_exact.
Qed.

Lemma render_row_renders (line_new line_old : string) (row : list cell) :
  render_row line_new line_old = Ok row → row_renders (line_new, line_old) row.
Proof.
  intros (nn & nc & on & oc & Hn & Ho & _ & ->)%render_row_exact.
  eexists nn, nc, on, oc, _, _. cbn [fst snd].
  split; [by apply split_entry_splits|]. split; [by apply split_entry_splits|].
  split; [reflexivity|]. apply fills_exact.
Qed.

Lemma render_rows_Forall2 (rows : list (string * string)) (ws : worksheet) :
  render_rows rows = Ok ws →
  Forall2 (λ lines row, render_row lines.1 lines.2 = Ok row) rows ws.
Proof.
  revert ws. induction rows as [|[ln lo] rows IH]; intros ws; simpl.
  - intros [= <-]. constructor.
  - destruct (render_row ln lo) as [r|e] eqn:Er; [|discriminate].
    destruct (render_rows rows) as [rs|e]; [|discriminate].
    intros [= <-]. constructor; auto.
Qed.


(** What a successful [create_excel] has done. *)
Lemma create_excel_ok (new_lines old_lines : list string) (output_file : string)
    (w : world) :
  (create_excel new_lines old_lines output_file w).1 = Ok () →
  ∃ ws widths,
    render_rows (zip new_lines old_lines) = Ok ws
    ∧ measure_columns ws = Ok widths
    ∧ writable w output_file = true
    ∧ (create_excel new_lines old_lines output_file w).2
      = World (stdin w)
              (<[output_file := Xlsx (Workbook "File Comparison" ws (padded <$> widths))]>
                 (files w))
              (writable w) (trace w ++ [Saved output_file]).
Proof.
  unfold create_excel, save. io_run.
  destruct (render_rows (zip new_lines old_lines)) as [ws|e]; [|discriminate].
  io_run. destruct (measure_columns ws) as [widths|e] eqn:Hm; [|discriminate].
  io_run. unfold emit, write_xlsx. simpl.
  destruct (writable w output_file) eqn:Hw; [|discriminate].
  intros _. by exists ws, widths.
Qed.

(** C3: in every row of the report [create_excel] writes, the new-content
    cell carries the green fill exactly when the new content is not empty
    and the old content is empty, the old-content cell carries the red fill
    exactly when the old content is not empty and the new content is empty,
    and no row carries both fills.  The rows of the stored sheet stand beside
    the pairs of entries, in their order; the contents of a row are the two
    strings its entries give when cut at their first blank, its cells hold
    what a cell keeps of them, and the same rule holds of the texts in the
    cells. *)
Theorem create_excel_highlight_exact
    (new_lines old_lines : list string) (output_file : string) (w : world) :
  (create_excel new_lines old_lines output_file w).1 = Ok () →
  ∃ wb, files (create_excel new_lines old_lines output_file w).2 !! output_file
        = Some (Xlsx wb)
        ∧ Forall2 row_renders (zip new_lines old_lines) (cells wb)
        ∧ Forall highlight_exact (cells wb).
Proof.
  intros (ws & widths & Hws & _ & _ & ->)%create_excel_ok.
  eexists. simpl. rewrite lookup_insert_eq. split; [reflexivity|]. simpl.
  apply render_rows_Forall2 in Hws.
  clear -Hws. induction Hws as [|[ln lo] row rows ws Hrow _ [IH1 IH2]].
  - split; constructor.
  - split; constructor; try done.
    + by apply (render_row_renders ln lo).
    + by apply (render_row_highlight ln lo).
Qed.

Lemma startswith_char (c : ascii) (line : string) :
  startswith (String c "") line = true → ∃ rest, line = String c rest.
Proof.
  unfold startswith. destruct line as [|d rest]; simpl; [discriminate|].
  destruct (ascii_dec c d) as [->|]; [eauto | discriminate].
Qed.

(** C10: an inserted or deleted line whose text is empty once its trailing
    whitespace is stripped gives a row without any fill: the entry of the
    line is not a gap, yet its content is the empty string, as the content
    of the gap beside it is, and the fills look at the contents only. *)
Theorem blank_line_row_not_highlighted (st : locals) (line : string) :
  startswith "+" line = true ∨ startswith "-" line = true →
  rstrip (slice_from 2 line) = "" →
  ∃ entry_new entry_old new_number old_number,
    new_lines (body st line) = new_lines st ++ [entry_new]
    ∧ old_lines (body st line) = old_lines st ++ [entry_old]
    ∧ (entry_new ≠ "" ∨ entry_old ≠ "")
    ∧ render_row entry_new entry_old
      = Ok (report_row new_number "" old_number "" None None).
Proof.
  intros Hline Htext. rewrite body_classify. unfold classify.
  destruct Hline as [Hplus|Hminus].
  - destruct (startswith_char _ _ Hplus) as [rest ->].
    change (startswith " " (String "+" rest)) with false.
    change (startswith "-" (String "+" rest)) with false.
    rewrite Hplus. cbn [row_of advance fst snd]. rewrite Htext.
    eexists _, _, (kept (str (new_line_number st))), "".
    split; [reflexivity|]. split; [reflexivity|].
    split.
    + left. apply truthy_true, show_some_truthy.
    + by rewrite (render_row_run _ _ _ _ _ _ (split_entry_show _ _)
                    (eq_refl : split_entry "" = Ok ("", ""))),
        storable_str, storable_empty, kept_empty.
  - destruct (startswith_char _ _ Hminus) as [rest ->].
    change (startswith " " (String "-" rest)) with false.
    rewrite Hminus. cbn [row_of advance fst snd]. rewrite Htext.
    eexists _, _, "", (kept (str (old_line_number st))).
    split; [reflexivity|]. split; [reflexivity|].
    split.
    + right. apply truthy_true, show_some_truthy.
    + by rewrite (render_row_run _ _ _ _ _ _
                    (eq_refl : split_entry "" = Ok ("", ""))
                    (split_entry_show _ _)),
        storable_str, storable_empty, kept_empty.
Qed.

Lemma text_width_cons (row : list cell) (ws : worksheet) (c : nat) :
  text_width (row :: ws) c
  = match row !! c ≫= text_of with
    | Some s => String.length s `max` text_width ws c
    | None => text_width ws c
    end.
Proof.
  unfold text_width. simpl. by destruct (row !! c ≫= text_of).
Qed.

(** The inner loop [for cell in col] on column [c]. *)
Lemma measure_column (ws : worksheet) (c k : nat) (widths : list nat) (w : nat) :
  k = c + 1 →
  widths !! c = Some w →
  foldl measure (Ok widths)
        (omap (λ row : list cell, (λ x, (k, x)) <$> row !! c) ws)
  = Ok (<[c := w `max` text_width ws c]> widths).
Proof.
  intros ->. revert widths w. induction ws as [|row ws IH]; intros widths w Hw.
  - simpl. unfold text_width. simpl. rewrite Nat.max_0_r.
    by rewrite list_insert_id.
  - rewrite text_width_cons. simpl.
    destruct (row !! c) as [x|]; simpl; [|by apply IH].
    rewrite Nat.add_sub, Hw.
    unfold text_of. destruct (value x) as [|s|z]; simpl; try by apply IH.
    etrans; [apply (IH _ (w `max` String.length s))|].
    + apply list_lookup_insert_eq. by eapply lookup_lt_Some.
    + rewrite list_insert_insert_eq. f_equal. f_equal. lia.
Qed.

Lemma text_width_beyond (ws : worksheet) (c : nat) :
  max_column ws ≤ c → text_width ws c = 0.
Proof.
  unfold max_column. induction ws as [|row ws IH]; [done|].
  rewrite text_width_cons. intros Hc.
  change (max_list (length <$> row :: ws))
    with (length row `max` max_list (length <$> ws)) in Hc.
  rewrite lookup_ge_None_2 by lia. simpl. apply IH. lia.
Qed.

Lemma measure_columns_widths (ws : worksheet) :
  max_column ws ≤ 4 →
  measure_columns ws = Ok (text_width ws <$> [0; 1; 2; 3]).
Proof.
  intros Hmax. unfold measure_columns, columns.
  assert (Hcases : max_column ws = 0 ∨ max_column ws = 1 ∨ max_column ws = 2
                   ∨ max_column ws = 3 ∨ max_column ws = 4) by lia.
  assert (Hzero : ∀ c, max_column ws ≤ c → text_width ws c = 0)
    by apply text_width_beyond.
  destruct Hcases as [E|[E|[E|[E|E]]]]; rewrite E in *; simpl;
    try (erewrite (measure_column ws 0 1) by reflexivity; simpl);
    try (erewrite (measure_column ws 1 2) by reflexivity; simpl);
    try (erewrite (measure_column ws 2 3) by reflexivity; simpl);
    try (erewrite (measure_column ws 3 4) by reflexivity; simpl);
    rewrite ?(Hzero 0), ?(Hzero 1), ?(Hzero 2), ?(Hzero 3) by lia;
    reflexivity.
Qed.

(** C7: once the rows are written, column [c] gets the width
    [m * 1.2], where [m] is the largest length among the text values of the
    cells of that column; a cell whose value has no length is passed over
    and the computation goes on.  The product is Python's binary64
    product of [m] and the constant [1.2]. *)
Theorem create_excel_column_widths (ws : worksheet) :
  max_column ws ≤ 4 →
  measure_columns ws = Ok (text_width ws <$> [0; 1; 2; 3])
  ∧ ∀ new_lines old_lines output_file w,
      render_rows (zip new_lines old_lines) = Ok ws →
      writable w output_file = true →
      (create_excel new_lines old_lines output_file w).1 = Ok ()
      ∧ files (create_excel new_lines old_lines output_file w).2 !! output_file
        = Some (Xlsx (Workbook "File Comparison" ws
                        ((λ c, PrimFloat.mul
                                 (Difflib.float_of_nat (text_width ws c)) 1.2%float)
                           <$> [0; 1; 2; 3]))).
Proof.
  intros Hmax. pose proof (measure_columns_widths ws Hmax) as Hm.
  split; [done|]. intros new_lines old_lines output_file w Hws Hw.
  unfold create_excel, save. io_run. rewrite Hws. io_run. rewrite Hm. io_run.
  unfold emit, write_xlsx. simpl. rewrite Hw. simpl.
  split; [done|]. by rewrite lookup_insert_eq.
Qed.

End CreateExcel.

(** ** Properties of [main] *)

Section Main.
Import PyStr Tool Rows Report.

Lemma read_file_run (filename : string) (w : world) :
  read_file filename w
  = (match files w !! filename with
     | None => Raise FileNotFoundError
     | Some (Text content) => Ok (splitlines content)
     | Some _ => Raise UnicodeDecodeError
     end, log w [Opened filename]).
Proof.
  unfold read_file, read_text, emit, log. io_run.
  destruct (files w !! filename) as [[content| |wb]|]; reflexivity.
Qed.

Lemma log_log (w : world) (evs1 evs2 : list event) :
  log (log w evs1) evs2 = log w (evs1 ++ evs2).
Proof. unfold log. simpl. by rewrite app_assoc. Qed.

(** [compare_files] reads the old file first, and the new file only when
    that went well. *)
Lemma compare_files_run (new_file old_file : string) (w : world) :
  compare_files new_file old_file w
  = match files w !! old_file with
    | None => (Raise FileNotFoundError, log w [Opened old_file])
    | Some (Text old) =>
        (match files w !! new_file with
         | None => Raise FileNotFoundError
         | Some (Text new) =>
             Ok (align (Difflib.ndiff (splitlines old) (splitlines new)))
         | Some _ => Raise UnicodeDecodeError
         end, log w [Opened old_file; Opened new_file])
    | Some _ => (Raise UnicodeDecodeError, log w [Opened old_file])
    end.
Proof.
  unfold compare_files. io_run. rewrite read_file_run.
  destruct (files w !! old_file) as [[old| |wb]|]; try reflexivity.
  io_run. rewrite read_file_run, log_log. simpl.
  destruct (files w !! new_file) as [[new| |wb]|]; reflexivity.
Qed.

Lemma create_excel_run (new_lines old_lines : list string) (output_file : string)
    (w : world) :
  create_excel new_lines old_lines output_file w
  = match render_rows (zip new_lines old_lines) with
    | Raise e => (Raise e, w)
    | Ok ws =>
        match measure_columns ws with
        | Raise e => (Raise e, w)
        | Ok widths =>
            if writable w output_file then
              (Ok (),
               World (stdin w)
                     (<[output_file := Xlsx (Workbook "File Comparison" ws
                                               (padded <$> widths))]> (files w))
                     (writable w) (trace w ++ [Saved output_file]))
            else (Raise OSError, log w [Saved output_file])
        end
    end.
Proof.
  unfold create_excel, save. io_run.
  destruct (render_rows (zip new_lines old_lines)) as [ws|e]; [|reflexivity].
  io_run. destruct (measure_columns ws) as [widths|e]; [|reflexivity].
  io_run. unfold emit, write_xlsx, log. simpl.
  by destruct (writable w output_file).
Qed.

(** [main] after its three prompts. *)
Lemma main_run (w : world) (p_new p_old p_out : string) (rest : list string) :
  stdin w = p_new :: p_old :: p_out :: rest →
  main w
  = (lines ← compare_files (strip_char quote p_new) (strip_char quote p_old);
     _ ← create_excel lines.1 lines.2 p_out;
     print ("Comparison Excel file '" +:+ p_out +:+ "' created successfully."))
      (World rest (files w) (writable w) (trace w ++ prompts)).
Proof.
  destruct w as [sin fs wr tr]. simpl. intros ->.
  unfold main, input, emit, readline. io_run. simpl.
  by rewrite <- !app_assoc.
Qed.

Local Ltac read_failed e :=
  eexists e, _; simpl; rewrite <- app_assoc;
  repeat split; eauto; repeat constructor; eauto.

(** C8: when the old or the new path names no file, or a file that is no
    text, [main] ends with that read error, raised to its caller; nothing was
    saved and the file store is as it was, so no output file exists for the
    failed run. *)
Theorem main_input_read_error
    (w : world) (p_new p_old p_out : string) (rest : list string) :
  stdin w = p_new :: p_old :: p_out :: rest →
  ¬ readable w (strip_char quote p_old) ∨ ¬ readable w (strip_char quote p_new) →
  ∃ e evs,
    (main w).1 = Raise e
    ∧ (e = FileNotFoundError ∨ e = UnicodeDecodeError)
    ∧ files (main w).2 = files w
    ∧ trace (main w).2 = trace w ++ prompts ++ evs
    ∧ Forall (λ ev, ∃ path, ev = Opened path) evs.
Proof.
  intros Hin Hbad. rewrite (main_run w p_new p_old p_out rest Hin). io_run.
  rewrite compare_files_run. cbn [files].
  unfold readable in Hbad.
  destruct (files w !! strip_char quote p_old) as [[old| |wb]|] eqn:Eold.
  - destruct (files w !! strip_char quote p_new) as [[new| |wb]|] eqn:Enew.
    + exfalso. destruct Hbad as [Hbad|Hbad]; apply Hbad; eauto.
    + read_failed UnicodeDecodeError.
    + read_failed UnicodeDecodeError.
    + read_failed FileNotFoundError.
  - read_failed UnicodeDecodeError.
  - read_failed UnicodeDecodeError.
  - read_failed FileNotFoundError.
Qed.

Local Ltac paths_used :=
  eexists; split;
  [ unfold log; simpl; rewrite <- ?app_assoc; reflexivity
  | split; [ by (eexists; reflexivity) | try discriminate; try reflexivity ] ].

(** C6, as the code has it: the answers to the first two prompts have
    their leading and trailing double quotes removed before the files are
    opened, the old file first; the answer to the third prompt is the path
    the workbook is saved to, as it was typed. *)
Theorem main_paths_used
    (w : world) (p_new p_old p_out : string) (rest : list string) :
  stdin w = p_new :: p_old :: p_out :: rest →
  ∃ evs,
    trace (main w).2 = trace w ++ evs
    ∧ accesses evs `prefix_of` [ Opened (strip_char quote p_old);
                                 Opened (strip_char quote p_new);
                                 Saved p_out ]
    ∧ ((main w).1 = Ok () →
       accesses evs = [ Opened (strip_char quote p_old);
                        Opened (strip_char quote p_new);
                        Saved p_out ]).
Proof.
  intros Hin. rewrite (main_run w p_new p_old p_out rest Hin). io_run.
  rewrite compare_files_run. cbn [files].
  destruct (files w !! strip_char quote p_old) as [[old| |wb]|];
    [|paths_used..].
  destruct (files w !! strip_char quote p_new) as [[new| |wb]|];
    [|paths_used..].
  io_run. rewrite create_excel_run.
  destruct (render_rows _) as [ws|e]; [|paths_used].
  destruct (measure_columns ws) as [widths|e]; [|paths_used].
  unfold log at 1. cbn [writable].
  destruct (writable w p_out); paths_used.
Qed.

Lemma split_entry_entry (e : entry) :
  ∃ number content, split_entry (show e) = Ok (number, content).
Proof.
  destruct e as [[n t]|]; [|by exists "", ""].
  exists (str n), t. apply split_entry_show.
Qed.

(** A sheet that was rendered has one row of four cells for each pair of
    entries. *)
Lemma render_rows_ok (rows : list (string * string)) (ws : worksheet) :
  render_rows rows = Ok ws → length ws = length rows ∧ max_column ws ≤ 4.
Proof.
  intros Hws%render_rows_Forall2. unfold max_column.
  induction Hws as [|[ln lo] row rows ws Hrow _ [IH1 IH2]]; [simpl; lia|].
  apply render_row_exact in Hrow as (nn & nc & on & oc & _ & _ & _ & ->).
  split; [simpl; lia|].
  change (4 `max` max_list (length <$> ws) ≤ 4). lia.
Qed.

End Main.

(** ** The delta of [ndiff] *)

Section MatcherFacts.
Import Difflib Matching.
Context `{Countable A}.
Variable isjunk : option (A → bool).
Variable autojunk : bool.
Variables a b : list A.

Lemma agree_0 (i j : nat) : agree a b i j 0.
Proof. intros t Ht. lia. Qed.

Lemma b2j_all_valid (x : A) (js : list nat) (j : nat) :
  b2j_all b !! x = Some js → j ∈ js → b !! j = Some x.
Proof.
  unfold b2j_all.
  assert (Hpairs : ∀ ie, ie ∈ imap pair b → b !! ie.1 = Some ie.2).
  { intros ie (i & y & -> & Hy)%elem_of_lookup_imap. done. }
  assert (Hempty : ∀ x js j, (∅ : gmap A (list nat)) !! x = Some js →
                             j ∈ js → b !! j = Some x).
  { intros ??? Hl. by rewrite lookup_empty in Hl. }
  revert x js j.
  generalize dependent (∅ : gmap A (list nat)).
  induction (imap pair b) as [|[i elt] l IH]; intros m Hm; [done|].
  simpl. apply IH.
  - intros ie Hie. apply Hpairs. by right.
  - intros x js j. destruct (decide (x = elt)) as [->|Hne].
    + rewrite lookup_insert_eq. intros [= <-] [Hj|Hj]%elem_of_app.
      * destruct (m !! elt) as [js|] eqn:E; [eauto|]. by apply elem_of_nil in Hj.
      * apply list_elem_of_singleton in Hj as ->.
        apply (Hpairs (i, elt)). by left.
    + rewrite lookup_insert_ne by done. apply Hm.
Qed.

Lemma b2j_valid (x : A) (js : list nat) (j : nat) :
  b2j isjunk autojunk b !! x = Some js → j ∈ js → b !! j = Some x.
Proof.
  unfold b2j, b2j_nojunk.
  intros [[Hl _]%map_lookup_filter_Some _]%map_lookup_filter_Some.
  by apply b2j_all_valid.
Qed.

Lemma block_in_mono (alo ahi ahi' blo bhi : nat) (x : block) :
  ahi ≤ ahi' → block_in a b alo ahi blo bhi x → block_in a b alo ahi' blo bhi x.
Proof. destruct x as [[i j] k]. unfold block_in. intuition lia. Qed.

Lemma scan_row_ok (alo blo bhi i : nat) (j2len : gmap nat nat) (js : list nat)
    (newj2len : gmap nat nat) (bst : block) :
  alo ≤ i →
  (∀ j, j ∈ js → ∃ x, a !! i = Some x ∧ b !! j = Some x) →
  row_ok a b alo blo bhi i j2len →
  row_ok a b alo blo bhi (S i) newj2len →
  block_in a b alo (S i) blo bhi bst →
  row_ok a b alo blo bhi (S i) (scan_row blo bhi i j2len js newj2len bst).1
  ∧ block_in a b alo (S i) blo bhi (scan_row blo bhi i j2len js newj2len bst).2.
Proof.
  intros Hi. revert newj2len bst.
  induction js as [|j js IH]; intros newj2len bst Hjs Hprev Hnew Hbst; [done|].
  simpl. destruct (j <? blo) eqn:Hlo.
  { apply IH; auto. intros j' Hj'. apply Hjs. by right. }
  destruct (bhi <=? j) eqn:Hhi; [done|].
  apply Nat.ltb_ge in Hlo. apply Nat.leb_gt in Hhi.
  destruct (Hjs j) as (x & Hax & Hbx); [by left|].
  set (k := (match j with 0 => 0 | S j' => default 0 (j2len !! j') end + 1)).
  assert (Hentry : entry_ok a b alo blo bhi (S i) j k).
  { subst k. destruct j as [|j'].
    - repeat split; try lia. intros t Ht. exists x.
      split; [rewrite <- Hax | rewrite <- Hbx]; f_equal; lia.
    - destruct (j2len !! j') as [k'|] eqn:Ek; simpl.
      + destruct (Hprev j' k' Ek) as (H1 & H2 & H3 & H4 & H5).
        repeat split; try lia. intros t Ht.
        destruct (decide (t < k')) as [Hlt|Hge].
        * destruct (H5 t Hlt) as (y & Hy1 & Hy2). exists y.
          split; [rewrite <- Hy1 | rewrite <- Hy2]; f_equal; lia.
        * exists x.
          split; [rewrite <- Hax | rewrite <- Hbx]; f_equal; lia.
      + repeat split; try lia. intros t Ht. exists x.
        split; [rewrite <- Hax | rewrite <- Hbx]; f_equal; lia. }
  apply IH.
  - intros j' Hj'. apply Hjs. by right.
  - done.
  - intros j' k' Hl. destruct (decide (j' = j)) as [->|Hne].
    + rewrite lookup_insert_eq in Hl. by injection Hl as <-.
    + rewrite lookup_insert_ne in Hl by done. by apply Hnew.
  - destruct (bst.2 <? k); [|done].
    destruct Hentry as (H1 & H2 & H3 & H4 & H5). unfold block_in.
    repeat split; try lia.
    by replace (i + 1 - k) with (S i - k) by lia.
Qed.

Lemma scan_ok (alo ahi blo bhi : nat) :
  alo ≤ ahi → blo ≤ bhi →
  block_in a b alo ahi blo bhi (scan isjunk autojunk a b alo ahi blo bhi).
Proof.
  intros Ha Hb. unfold scan.
  assert (Hgen : ∀ n i (st : gmap nat nat * block),
             i + n = ahi → alo ≤ i →
             row_ok a b alo blo bhi i st.1 →
             block_in a b alo i blo bhi st.2 →
             block_in a b alo ahi blo bhi
               (foldl (λ (st : gmap nat nat * block) (i : nat),
                         match a !! i with
                         | Some x =>
                             scan_row blo bhi i st.1
                               (default [] (b2j isjunk autojunk b !! x)) ∅ st.2
                         | None => (∅, st.2)
                         end) st (seq i n)).2).
  { induction n as [|n IH]; intros i st Hn Hi Hrow Hbst; simpl.
    - by replace ahi with i by lia.
    - apply IH; [lia | lia | |].
      + destruct (a !! i) as [x|] eqn:Ex; simpl.
        * apply scan_row_ok; auto.
          -- intros j Hj. exists x. split; [done|].
             destruct (b2j isjunk autojunk b !! x) as [js|] eqn:Ejs; simpl in Hj.
             ++ by eapply b2j_valid.
             ++ by apply elem_of_nil in Hj.
          -- intros j k Hl. by rewrite lookup_empty in Hl.
          -- eapply block_in_mono; [|done]. lia.
        * intros j k Hl. by rewrite lookup_empty in Hl.
      + destruct (a !! i) as [x|] eqn:Ex; simpl.
        * apply scan_row_ok; auto.
          -- intros j Hj. exists x. split; [done|].
             destruct (b2j isjunk autojunk b !! x) as [js|] eqn:Ejs; simpl in Hj.
             ++ by eapply b2j_valid.
             ++ by apply elem_of_nil in Hj.
          -- intros j k Hl. by rewrite lookup_empty in Hl.
          -- eapply block_in_mono; [|done]. lia.
        * eapply block_in_mono; [|done]. lia. }
  apply Hgen; simpl; try lia.
  - intros j k Hl. by rewrite lookup_empty in Hl.
  - repeat split; try lia. apply agree_0.
Qed.

Lemma same_at_true (i j : nat) :
  same_at a b i j = true → ∃ x, a !! i = Some x ∧ b !! j = Some x.
Proof.
  unfold same_at. destruct (a !! i) as [x|], (b !! j) as [y|]; try done.
  intros ->%bool_decide_eq_true. eauto.
Qed.

Lemma extend_down_ok (junk : bool) (alo ahi blo bhi besti bestj bestsize : nat) :
  block_in a b alo ahi blo bhi (besti, bestj, bestsize) →
  block_in a b alo ahi blo bhi
    (extend_down isjunk a b junk alo blo besti bestj bestsize).
Proof.
  revert bestj bestsize.
  induction besti as [|i' IH]; intros bestj bestsize Hb; [done|].
  simpl.
  destruct (alo <? S i') eqn:H1; [|done].
  destruct (blo <? bestj) eqn:H2; [|done].
  destruct (Bool.eqb (junk_at isjunk b (bestj - 1)) junk); [|done].
  destruct (same_at a b i' (bestj - 1)) eqn:H3; [|done]. simpl.
  apply Nat.ltb_lt in H1, H2. apply same_at_true in H3 as (x & Hx1 & Hx2).
  apply IH. destruct Hb as (Hb1 & Hb2 & Hb3 & Hb4 & Hb5).
  repeat split; try lia. intros t Ht. destruct t as [|t].
  - exists x. by rewrite !Nat.add_0_r.
  - destruct (Hb5 t) as (y & Hy1 & Hy2); [lia|]. exists y.
    replace (i' + S t) with (S i' + t) by lia.
    by replace (bestj - 1 + S t) with (bestj + t) by lia.
Qed.

Lemma extend_up_ok (junk : bool) (alo ahi blo bhi n besti bestj bestsize : nat) :
  block_in a b alo ahi blo bhi (besti, bestj, bestsize) →
  block_in a b alo ahi blo bhi
    (besti, bestj, extend_up isjunk a b junk ahi bhi n besti bestj bestsize).
Proof.
  revert bestsize. induction n as [|n IH]; intros bestsize Hb; [done|].
  simpl.
  destruct (besti + bestsize <? ahi) eqn:H1; [|done].
  destruct (bestj + bestsize <? bhi) eqn:H2; [|done].
  destruct (Bool.eqb (junk_at isjunk b (bestj + bestsize)) junk); [|done].
  destruct (same_at a b (besti + bestsize) (bestj + bestsize)) eqn:H3; [|done].
  simpl. apply Nat.ltb_lt in H1, H2. apply same_at_true in H3 as (x & Hx1 & Hx2).
  apply IH. destruct Hb as (Hb1 & Hb2 & Hb3 & Hb4 & Hb5).
  repeat split; try lia. intros t Ht.
  destruct (decide (t < bestsize)) as [Hlt|Hge]; [by apply Hb5|].
  assert (t = bestsize) as -> by lia. eauto.
Qed.

Lemma find_longest_match_ok (alo ahi blo bhi : nat) :
  alo ≤ ahi → blo ≤ bhi →
  block_in a b alo ahi blo bhi
    (find_longest_match isjunk autojunk a b alo ahi blo bhi).
Proof.
  intros Ha Hb. unfold find_longest_match.
  pose proof (scan_ok alo ahi blo bhi Ha Hb) as H0.
  destruct (scan isjunk autojunk a b alo ahi blo bhi) as [[i0 j0] k0].
  pose proof (extend_down_ok false _ _ _ _ _ _ _ H0) as H1.
  destruct (extend_down isjunk a b false alo blo i0 j0 k0) as [[i1 j1] k1].
  pose proof (extend_up_ok false _ _ _ _ (ahi - (i1 + k1)) _ _ _ H1) as H2.
  set (k2 := extend_up isjunk a b false ahi bhi (ahi - (i1 + k1)) i1 j1 k1) in *.
  pose proof (extend_down_ok true _ _ _ _ _ _ _ H2) as H3.
  destruct (extend_down isjunk a b true alo blo i1 j1 k2) as [[i3 j3] k3].
  apply (extend_up_ok true _ _ _ _ (ahi - (i3 + k3)) _ _ _ H3).
Qed.

End MatcherFacts.

Section BlockOrder.
Import Difflib.

#[global] Instance block_le_total : Total block_le.
Proof. intros [[i1 j1] k1] [[i2 j2] k2]. unfold block_le. lia. Qed.

#[global] Instance block_le_trans : Transitive block_le.
Proof.
  intros [[i1 j1] k1] [[i2 j2] k2] [[i3 j3] k3]. unfold block_le. lia.
Qed.

#[global] Instance block_le_antisymm : AntiSymm (=) block_le.
Proof.
  intros [[i1 j1] k1] [[i2 j2] k2]. unfold block_le. intros ??.
  repeat f_equal; lia.
Qed.

End BlockOrder.

Section BlockFacts.
Import Difflib Matching Blocks.
Context `{Countable A}.
Variable isjunk : option (A → bool).
Variable autojunk : bool.
Variables a b : list A.

Local Abbreviation flm := (find_longest_match isjunk autojunk a b).
Local Abbreviation loop := (blocks_loop isjunk autojunk a b).
Local Abbreviation ino := (inorder isjunk autojunk a b).
Local Abbreviation pre := (preorder isjunk autojunk a b).
Local Abbreviation cost := (pops isjunk autojunk a b).

Lemma blocks_loop_done (fuel : nat) (acc : list block) : loop fuel [] acc = acc.
Proof. by destruct fuel. Qed.

(** The loop works a window off in [pops] iterations and appends its
    blocks. *)
Lemma blocks_loop_window (d : nat) :
  ∀ alo ahi blo bhi queue acc fuel,
    alo ≤ ahi → blo ≤ bhi → ahi - alo < d →
    loop (cost d alo ahi blo bhi + fuel) ((alo, ahi, blo, bhi) :: queue) acc
    = loop fuel queue (acc ++ pre d alo ahi blo bhi).
Proof.
  induction d as [|d IH]; intros alo ahi blo bhi queue acc fuel Ha Hb Hd; [lia|].
  pose proof (find_longest_match_ok isjunk autojunk a b alo ahi blo bhi Ha Hb) as Hm.
  cbn [pops preorder]. destruct (flm alo ahi blo bhi) as [[i j] k] eqn:Eflm.
  destruct (k =? 0) eqn:Ek.
  - cbn [blocks_loop Nat.add]. rewrite Eflm, Ek. by rewrite app_nil_r.
  - apply Nat.eqb_neq in Ek. destruct Hm as (H1 & H2 & H3 & H4 & _).
    rewrite <- !Nat.add_assoc. cbn [blocks_loop Nat.add]. rewrite Eflm.
    replace (k =? 0) with false by (symmetry; by apply Nat.eqb_neq).
    destruct ((i + k <? ahi) && (j + k <? bhi)) eqn:Er;
      destruct ((alo <? i) && (blo <? j)) eqn:El;
      repeat match goal with
             | E : _ && _ = true |- _ =>
                 apply andb_true_iff in E as [?%Nat.ltb_lt ?%Nat.ltb_lt]
             end.
    + rewrite IH by lia. rewrite IH by lia.
      by rewrite <- !app_assoc.
    + rewrite IH by lia. cbn [Nat.add]. by rewrite app_nil_r, <- !app_assoc.
    + cbn [Nat.add]. rewrite IH by lia. by rewrite <- !app_assoc.
    + cbn [Nat.add]. by rewrite app_nil_r.
Qed.

Lemma pops_bound (d : nat) :
  ∀ alo ahi blo bhi,
    alo ≤ ahi → blo ≤ bhi → ahi - alo < d →
    cost d alo ahi blo bhi ≤ 2 * (ahi - alo) + 1.
Proof.
  induction d as [|d IH]; intros alo ahi blo bhi Ha Hb Hd; [lia|].
  pose proof (find_longest_match_ok isjunk autojunk a b alo ahi blo bhi Ha Hb) as Hm.
  cbn [pops]. destruct (flm alo ahi blo bhi) as [[i j] k].
  destruct (k =? 0) eqn:Ek; [lia|].
  apply Nat.eqb_neq in Ek. destruct Hm as (H1 & H2 & H3 & H4 & _).
  destruct ((i + k <? ahi) && (j + k <? bhi)) eqn:Er;
    destruct ((alo <? i) && (blo <? j)) eqn:El;
    repeat match goal with
           | E : _ && _ = true |- _ =>
               apply andb_true_iff in E as [?%Nat.ltb_lt ?%Nat.ltb_lt]
           end.
  - pose proof (IH (i + k) ahi (j + k) bhi). pose proof (IH alo i blo j). lia.
  - pose proof (IH (i + k) ahi (j + k) bhi). lia.
  - pose proof (IH alo i blo j). lia.
  - lia.
Qed.

Lemma preorder_inorder (d : nat) :
  ∀ alo ahi blo bhi, pre d alo ahi blo bhi ≡ₚ ino d alo ahi blo bhi.
Proof.
  induction d as [|d IH]; intros alo ahi blo bhi; [done|].
  cbn [preorder inorder]. destruct (flm alo ahi blo bhi) as [[i j] k].
  destruct (k =? 0); [done|].
  rewrite <- Permutation_middle. constructor.
  rewrite Permutation_app_comm.
  destruct ((i + k <? ahi) && (j + k <? bhi)), ((alo <? i) && (blo <? j));
    rewrite ?IH; done.
Qed.

Lemma chain_weaken (l : list block) (i j i0 j0 i' j' i1 j1 : nat) :
  i0 ≤ i → j0 ≤ j → i' ≤ i1 → j' ≤ j1 →
  chain a b i j l i' j' → chain a b i0 j0 l i1 j1.
Proof.
  revert i j i0 j0. induction l as [|[[ai bj] k] l IH]; intros i j i0 j0; simpl.
  - lia.
  - intros ???? (?&?&?&?). repeat split; try lia; try done.
    eapply IH; [| | | |done]; lia.
Qed.

Lemma chain_app (l1 l2 : list block) (i j m n i' j' : nat) :
  chain a b i j l1 m n → chain a b m n l2 i' j' → chain a b i j (l1 ++ l2) i' j'.
Proof.
  revert i j. induction l1 as [|[[ai bj] k] l1 IH]; intros i j; simpl.
  - intros [??] Hc. eapply chain_weaken; [| | | |done]; lia.
  - intros (?&?&?&?) Hc. repeat split; try done. by apply IH.
Qed.

Lemma inorder_chain (d : nat) :
  ∀ alo ahi blo bhi,
    alo ≤ ahi → blo ≤ bhi → ahi - alo < d →
    chain a b alo blo (ino d alo ahi blo bhi) ahi bhi
    ∧ Forall (λ x : block, 1 ≤ x.2) (ino d alo ahi blo bhi).
Proof.
  induction d as [|d IH]; intros alo ahi blo bhi Ha Hb Hd; [lia|].
  pose proof (find_longest_match_ok isjunk autojunk a b alo ahi blo bhi Ha Hb) as Hm.
  cbn [inorder]. destruct (flm alo ahi blo bhi) as [[i j] k].
  destruct (k =? 0) eqn:Ek; [by repeat split|].
  apply Nat.eqb_neq in Ek. destruct Hm as (H1 & H2 & H3 & H4 & H5).
  assert (Hl : chain a b alo blo
                 (if (alo <? i) && (blo <? j) then ino d alo i blo j else []) i j
               ∧ Forall (λ x : block, 1 ≤ x.2)
                   (if (alo <? i) && (blo <? j) then ino d alo i blo j else [])).
  { destruct ((alo <? i) && (blo <? j)) eqn:El; [|by repeat split].
    apply andb_true_iff in El as [?%Nat.ltb_lt ?%Nat.ltb_lt]. apply IH; lia. }
  assert (Hr : chain a b (i + k) (j + k)
                 (if (i + k <? ahi) && (j + k <? bhi)
                  then ino d (i + k) ahi (j + k) bhi else []) ahi bhi
               ∧ Forall (λ x : block, 1 ≤ x.2)
                   (if (i + k <? ahi) && (j + k <? bhi)
                    then ino d (i + k) ahi (j + k) bhi else [])).
  { destruct ((i + k <? ahi) && (j + k <? bhi)) eqn:Er; [|by repeat split].
    apply andb_true_iff in Er as [?%Nat.ltb_lt ?%Nat.ltb_lt]. apply IH; lia. }
  destruct Hl as [Hl1 Hl2], Hr as [Hr1 Hr2]. split.
  - eapply chain_app; [exact Hl1|]. simpl. repeat split; try lia; done.
  - apply Forall_app. split; [done|]. constructor; [simpl; lia | done].
Qed.

Lemma chain_sorted (l : list block) (i j i' j' : nat) :
  chain a b i j l i' j' → Forall (λ x : block, 1 ≤ x.2) l → Sorted block_le l.
Proof.
  revert i j. induction l as [|[[ai bj] k] l IH]; intros i j; [constructor|].
  simpl. intros (_ & _ & _ & Hc) [Hk Hl]%Forall_cons. simpl in Hk.
  constructor; [by eapply IH|].
  destruct l as [|[[ai' bj'] k'] l]; constructor.
  simpl in Hc. unfold block_le. lia.
Qed.

(** The sorted blocks of [get_matching_blocks] are those of the whole
    window, from left to right; the fuel of the loop is enough. *)
Lemma sorted_blocks :
  merge_sort block_le (loop (2 * length a + 1) [(0, length a, 0, length b)] [])
  = ino (S (length a)) 0 (length a) 0 (length b).
Proof.
  pose proof (pops_bound (S (length a)) 0 (length a) 0 (length b)) as Hcost.
  replace (2 * length a + 1)
    with (cost (S (length a)) 0 (length a) 0 (length b)
          + (2 * length a + 1 - cost (S (length a)) 0 (length a) 0 (length b)))
    by lia.
  rewrite blocks_loop_window by lia. rewrite blocks_loop_done, app_nil_l.
  destruct (inorder_chain (S (length a)) 0 (length a) 0 (length b)) as [Hc Hk];
    [lia..|].
  apply (Sorted_unique block_le).
  - apply Sorted_merge_sort, _.
  - by eapply chain_sorted.
  - by rewrite merge_sort_Permutation, preorder_inorder.
Qed.

End BlockFacts.

Section OpcodeFacts.
Import Difflib Matching Blocks Opcodes.
Context `{Countable A}.
Variable isjunk : option (A → bool).
Variable autojunk : bool.
Variables a b : list A.

Lemma chain_app_inv (l1 l2 : list block) (i j i' j' : nat) :
  chain a b i j (l1 ++ l2) i' j' →
  ∃ m n, chain a b i j l1 m n ∧ chain a b m n l2 i' j'.
Proof.
  revert i j. induction l1 as [|[[ai bj] k] l1 IH]; intros i j; simpl.
  - intros Hc. exists i, j. by repeat split.
  - intros (?&?&?&Hc). destruct (IH _ _ Hc) as (m & n & ? & ?).
    exists m, n. by repeat split.
Qed.

Lemma agree_app (i j k1 k2 : nat) :
  agree a b i j k1 → agree a b (i + k1) (j + k1) k2 → agree a b i j (k1 + k2).
Proof.
  intros H1 H2 t Ht. destruct (decide (t < k1)) as [Hlt|Hge]; [by apply H1|].
  destruct (H2 (t - k1)) as (x & Hx1 & Hx2); [lia|]. exists x.
  split; [rewrite <- Hx1 | rewrite <- Hx2]; f_equal; lia.
Qed.

(** The loop that merges adjacent blocks keeps them a chain. *)
Lemma collapse_chain (l : list block) :
  ∀ i1 j1 k1 out i' j',
    chain a b 0 0 (out ++ [(i1, j1, k1)]) (i1 + k1) (j1 + k1) →
    chain a b (i1 + k1) (j1 + k1) l i' j' →
    chain a b 0 0
      ((foldl collapse ((i1, j1, k1), out) l).2
       ++ [(foldl collapse ((i1, j1, k1), out) l).1]) i' j'.
Proof.
  induction l as [|[[i2 j2] k2] l IH]; intros i1 j1 k1 out i' j' Hout Hl.
  - simpl in *. eapply chain_weaken; [| | | |exact Hout]; lia.
  - simpl in Hl. destruct Hl as (Hi & Hj & Hag & Hl).
    apply chain_app_inv in Hout as (m & n & Hout & Hp).
    simpl in Hp. destruct Hp as (Hm & Hn & Hag1 & _).
    cbn [foldl]. unfold collapse at 2 4.
    destruct ((i1 + k1 =? i2) && (j1 + k1 =? j2)) eqn:Eadj.
    + apply andb_true_iff in Eadj as [<-%Nat.eqb_eq <-%Nat.eqb_eq].
      apply IH.
      * eapply chain_app; [exact Hout|]. simpl.
        repeat split; try lia. by apply agree_app.
      * by rewrite !Nat.add_assoc.
    + apply IH; [|done]. destruct (k1 =? 0) eqn:Ek.
      * apply Nat.eqb_eq in Ek as ->.
        eapply chain_app; [exact Hout|]. simpl. repeat split; try lia; done.
      * eapply chain_app.
        -- eapply chain_app; [exact Hout|]. simpl.
           repeat split; [exact Hm | exact Hn | exact Hag1 | |];
             apply Nat.le_refl.
        -- simpl. repeat split; try lia; done.
Qed.

Lemma get_matching_blocks_chain :
  ∃ blocks,
    get_matching_blocks isjunk autojunk a b = blocks ++ [(length a, length b, 0)]
    ∧ chain a b 0 0 blocks (length a) (length b).
Proof.
  unfold get_matching_blocks. rewrite sorted_blocks.
  destruct (inorder_chain isjunk autojunk a b (S (length a)) 0 (length a) 0 (length b))
    as [Hc _]; [lia..|].
  set (l := inorder isjunk autojunk a b (S (length a)) 0 (length a) 0 (length b)) in *.
  clearbody l.
  pose proof (collapse_chain l 0 0 0 [] (length a) (length b)) as Hcol.
  specialize (Hcol ltac:(simpl; repeat split; try lia; apply agree_0) Hc).
  destruct (foldl collapse (0, 0, 0, []) l) as [[[i1 j1] k1] out] eqn:Efold.
  unfold block in *. rewrite Efold in Hcol.
  cbn [fst snd] in Hcol. destruct (k1 =? 0) eqn:Ek.
  - exists out. split; [done|].
    apply chain_app_inv in Hcol as (m & n & Hout & Hp).
    simpl in Hp. eapply chain_weaken; [| | | |exact Hout]; lia.
  - exists (out ++ [(i1, j1, k1)]). by split.
Qed.

Lemma tiles_app (ops1 ops2 : list opcode) (i j m n i' j' : nat) :
  tiles a b i j ops1 m n → tiles a b m n ops2 i' j' →
  tiles a b i j (ops1 ++ ops2) i' j'.
Proof.
  revert i j. induction ops1 as [|[[[[tag i1] i2] j1] j2] ops1 IH]; intros i j; simpl.
  - by intros [-> ->].
  - intros (?&?&?&?&?&?) ?. repeat split; try done. by apply IH.
Qed.

Lemma tiles_le (ops : list opcode) (i j i' j' : nat) :
  tiles a b i j ops i' j' → i ≤ i' ∧ j ≤ j'.
Proof.
  revert i j. induction ops as [|[[[[tag i1] i2] j1] j2] ops IH]; intros i j; simpl.
  - lia.
  - intros (?&?&?&?&?&Hr). apply IH in Hr. lia.
Qed.

Lemma opcode_step_tiles (i j : nat) (answer : list opcode) (ai bj size : nat) :
  tiles a b 0 0 answer i j → i ≤ ai → j ≤ bj → agree a b ai bj size →
  tiles a b 0 0 (opcode_step (i, j, answer) (ai, bj, size)).2 (ai + size) (bj + size)
  ∧ (opcode_step (i, j, answer) (ai, bj, size)).1 = (ai + size, bj + size).
Proof.
  intros Hans Hi Hj Hag. unfold opcode_step. cbn [fst snd]. split; [|done].
  assert (Hgap : tiles a b 0 0
                   (if (i <? ai) && (j <? bj) then answer ++ [(Replace, i, ai, j, bj)]
                    else if i <? ai then answer ++ [(Delete, i, ai, j, bj)]
                    else if j <? bj then answer ++ [(Insert, i, ai, j, bj)]
                    else answer) ai bj).
  { destruct (i <? ai) eqn:E1, (j <? bj) eqn:E2; simpl;
      first [apply Nat.ltb_lt in E1 | apply Nat.ltb_ge in E1];
      first [apply Nat.ltb_lt in E2 | apply Nat.ltb_ge in E2].
    - eapply tiles_app; [exact Hans|]. simpl. repeat split; lia.
    - eapply tiles_app; [exact Hans|]. simpl. repeat split; lia.
    - eapply tiles_app; [exact Hans|]. simpl. repeat split; lia.
    - by replace ai with i by lia; replace bj with j by lia. }
  destruct (size =? 0) eqn:Es.
  - apply Nat.eqb_eq in Es as ->. by rewrite !Nat.add_0_r.
  - eapply tiles_app; [exact Hgap|]. simpl. repeat split; try lia.
    by replace (ai + size - ai) with size by lia.
Qed.

Lemma opcodes_tiles (blocks : list block) :
  ∀ i j answer i' j',
    tiles a b 0 0 answer i j → chain a b i j blocks i' j' →
    ∃ m n answer',
      foldl opcode_step (i, j, answer) blocks = (m, n, answer')
      ∧ tiles a b 0 0 answer' m n ∧ m ≤ i' ∧ n ≤ j'.
Proof.
  induction blocks as [|[[ai bj] size] blocks IH]; intros i j answer i' j' Hans Hc.
  - simpl in *. exists i, j, answer. repeat split; [done|lia..].
  - simpl in Hc. destruct Hc as (Hi & Hj & Hag & Hc).
    destruct (opcode_step_tiles i j answer ai bj size Hans Hi Hj Hag) as [Ht Hcur].
    cbn [foldl].
    destruct (opcode_step (i, j, answer) (ai, bj, size)) as [[m n] answer'].
    simpl in Ht, Hcur. injection Hcur as -> ->. by apply IH.
Qed.

Lemma get_opcodes_tiles :
  tiles a b 0 0 (get_opcodes isjunk autojunk a b) (length a) (length b).
Proof.
  unfold get_opcodes.
  destruct get_matching_blocks_chain as (blocks & -> & Hc).
  rewrite foldl_app.
  destruct (opcodes_tiles blocks 0 0 [] (length a) (length b))
    as (m & n & answer & -> & Ht & Hm & Hn); [done | done |].
  cbn [foldl].
  destruct (opcode_step_tiles m n answer (length a) (length b) 0 Ht Hm Hn)
    as [Hfin _]; [apply agree_0|].
  by rewrite !Nat.add_0_r in Hfin.
Qed.

Lemma slice_split (x : list A) (lo mid hi : nat) :
  lo ≤ mid → mid ≤ hi → slice x lo hi = slice x lo mid ++ slice x mid hi.
Proof.
  intros H1 H2. unfold slice.
  replace (hi - lo) with ((mid - lo) + (hi - mid)) by lia.
  rewrite <- take_take_drop, drop_drop. do 3 f_equal. lia.
Qed.

Lemma slice_nil (x : list A) (lo : nat) : slice x lo lo = [].
Proof. unfold slice. by rewrite Nat.sub_diag. Qed.

Lemma slice_all (x : list A) : slice x 0 (length x) = x.
Proof. unfold slice. rewrite Nat.sub_0_r. simpl. by rewrite take_ge. Qed.

Lemma slice_one (x : list A) (i : nat) (y : A) :
  x !! i = Some y → slice x i (i + 1) = [y].
Proof.
  intros Hy. unfold slice. replace (i + 1 - i) with 1 by lia.
  apply list_eq. intros [|t].
  - rewrite lookup_take_lt by lia. by rewrite lookup_drop, Nat.add_0_r.
  - by rewrite lookup_take_ge by lia.
Qed.

Lemma agree_slices (i j k : nat) :
  agree a b i j k → slice a i (i + k) = slice b j (j + k).
Proof.
  intros Hag. unfold slice. replace (i + k - i) with k by lia.
  replace (j + k - j) with k by lia. apply list_eq. intros t.
  destruct (decide (t < k)) as [Hlt|Hge].
  - rewrite !lookup_take_lt, !lookup_drop by done.
    destruct (Hag t Hlt) as (y & -> & ->). done.
  - by rewrite !lookup_take_ge by lia.
Qed.

End OpcodeFacts.

Section DifferFacts.
Import PyStr Difflib Matching Blocks Opcodes Delta Synch.

Local Ltac evaluate_code :=
  repeat match goal with
         | |- context [bool_decide ?P] =>
             let v := eval vm_compute in (bool_decide P) in
             change (bool_decide P) with v
         end;
  cbn [slice_from].

Lemma restore_app (d1 d2 : list string) (w : which) :
  restore (d1 ++ d2) w = restore d1 w ++ restore d2 w.
Proof. unfold restore. by rewrite filter_app, fmap_app. Qed.

Lemma coded_tagged (c : ascii) (line : string) :
  c ∈ [" "%char; "-"%char; "+"%char; "?"%char] →
  coded (String c (String " " line)).
Proof.
  unfold coded. cbn [slice_to]. intros Hc.
  repeat (apply elem_of_cons in Hc as [->|Hc]; [set_solver|]).
  by apply elem_of_nil in Hc.
Qed.

Lemma delta_of_nil : delta_of [] [] [].
Proof. by repeat split. Qed.

Lemma delta_of_app (x1 y1 d1 x2 y2 d2 : list string) :
  delta_of x1 y1 d1 → delta_of x2 y2 d2 →
  delta_of (x1 ++ x2) (y1 ++ y2) (d1 ++ d2).
Proof.
  intros (Hc1 & <- & <-) (Hc2 & <- & <-).
  split; [by apply Forall_app|]. by rewrite !restore_app.
Qed.

Local Ltac one_line :=
  intros (Hc & <- & <-); split;
  [ constructor; [apply coded_tagged; set_solver | done]
  | split; rewrite restore_cons; unfold tag; by evaluate_code ].

Lemma delta_of_join (x1 y1 d1 x2 y2 d2 x y : list string) :
  delta_of x1 y1 d1 → delta_of x2 y2 d2 → x = x1 ++ x2 → y = y1 ++ y2 →
  delta_of x y (d1 ++ d2).
Proof. intros ?? -> ->. by apply delta_of_app. Qed.

(** One line of each code. *)
Lemma delta_of_keep (line : string) (x y d : list string) :
  delta_of x y d → delta_of (line :: x) (line :: y) (String " " (String " " line) :: d).
Proof.
  one_line.
Qed.

Lemma delta_of_minus (line : string) (x y d : list string) :
  delta_of x y d → delta_of (line :: x) y (String "-" (String " " line) :: d).
Proof.
  one_line.
Qed.

Lemma delta_of_plus (line : string) (x y d : list string) :
  delta_of x y d → delta_of x (line :: y) (String "+" (String " " line) :: d).
Proof.
  one_line.
Qed.

Lemma delta_of_hint (line : string) (x y d : list string) :
  delta_of x y d → delta_of x y (String "?" (String " " line) :: d).
Proof.
  one_line.
Qed.

Lemma dump_keep (x : list string) (lo hi : nat) :
  delta_of (slice x lo hi) (slice x lo hi) (dump " " x lo hi).
Proof.
  unfold dump, slice. induction (take (hi - lo) (drop lo x)) as [|line l IH];
    [apply delta_of_nil|].
  csimpl. by apply delta_of_keep.
Qed.

Lemma dump_minus (x : list string) (lo hi : nat) :
  delta_of (slice x lo hi) [] (dump "-" x lo hi).
Proof.
  unfold dump, slice. induction (take (hi - lo) (drop lo x)) as [|line l IH];
    [apply delta_of_nil|].
  csimpl. by apply delta_of_minus.
Qed.

Lemma dump_plus (x : list string) (lo hi : nat) :
  delta_of [] (slice x lo hi) (dump "+" x lo hi).
Proof.
  unfold dump, slice. induction (take (hi - lo) (drop lo x)) as [|line l IH];
    [apply delta_of_nil|].
  csimpl. by apply delta_of_plus.
Qed.

Lemma plain_replace_delta (a : list string) (alo ahi : nat)
    (b : list string) (blo bhi : nat) :
  delta_of (slice a alo ahi) (slice b blo bhi) (plain_replace a alo ahi b blo bhi).
Proof.
  unfold plain_replace. destruct (bhi - blo <? ahi - alo).
  - eapply delta_of_join; [apply dump_plus | apply dump_minus | ..];
      by rewrite ?app_nil_r.
  - eapply delta_of_join; [apply dump_minus | apply dump_plus | ..];
      by rewrite ?app_nil_r.
Qed.

Lemma qformat_delta (aline bline atags btags : string) :
  delta_of [aline] [bline] (qformat aline bline atags btags).
Proof.
  unfold qformat.
  destruct (truthy (rstrip (keep_original_ws aline atags)));
    destruct (truthy (rstrip (keep_original_ws bline btags))); simpl;
    repeat first [ apply delta_of_minus | apply delta_of_plus
                 | apply delta_of_hint | apply delta_of_nil ].
Qed.

Section Replace.
Variable charjunk : option (ascii → bool).
Variables a b : list string.

Lemma pick_keeps (alo ahi blo bhi i j : nat)
    (st : float * option (nat * nat) * option (nat * nat)) :
  pick_ok a b alo ahi blo bhi st → alo ≤ i < ahi → blo ≤ j < bhi →
  pick_ok a b alo ahi blo bhi (pick charjunk a b st (j, i)).
Proof.
  destruct st as [[best_ratio best] eq]. intros (H1 & H2 & H3) Hi Hj.
  unfold pick.
  destruct (a !! i) as [ai|] eqn:Ea; [|done].
  destruct (b !! j) as [bj|] eqn:Eb; [|done].
  case_bool_decide as Heq.
  - subst bj. split; [exact H1|]. split; [exact H2|].
    destruct eq as [[eqi eqj]|]; [exact H3|].
    intros i' j' [= <- <-]. repeat split; try lia. by exists ai.
  - destruct (_ && _); [|exact (conj H1 (conj H2 H3))].
    split; [intros [=]|]. split; [|exact H3].
    intros i' j' [= <- <-]. repeat split; try lia; eauto.
Qed.

Lemma pairs_in_range (alo ahi blo bhi : nat) :
  Forall (λ ji : nat * nat, alo ≤ ji.2 < ahi ∧ blo ≤ ji.1 < bhi)
         (j ← seq blo (bhi - blo); i ← seq alo (ahi - alo); [(j, i)]).
Proof.
  apply Forall_forall. intros [j i] (j' & Hin & Hj)%list_elem_of_bind.
  apply list_elem_of_bind in Hin as (i' & Hin & Hi).
  apply list_elem_of_singleton in Hin as [= -> ->].
  apply elem_of_seq in Hi, Hj. simpl. lia.
Qed.

Lemma fold_pick_ok (alo ahi blo bhi : nat) (pairs : list (nat * nat))
    (st : float * option (nat * nat) * option (nat * nat)) :
  Forall (λ ji : nat * nat, alo ≤ ji.2 < ahi ∧ blo ≤ ji.1 < bhi) pairs →
  pick_ok a b alo ahi blo bhi st →
  pick_ok a b alo ahi blo bhi (foldl (pick charjunk a b) st pairs).
Proof.
  intros Hpairs. revert st.
  induction Hpairs as [|[j i] pairs [Hi Hj] _ IH]; intros st Hst; [done|].
  simpl. apply IH. by apply pick_keeps.
Qed.

Lemma chosen_ok (alo ahi blo bhi : nat)
    (st : float * option (nat * nat) * option (nat * nat)) :
  pick_ok a b alo ahi blo bhi st →
  match chosen st with
  | None => False
  | Some None => True
  | Some (Some (i, j, identical)) =>
      alo ≤ i < ahi ∧ blo ≤ j < bhi
      ∧ ∃ x y, a !! i = Some x ∧ b !! j = Some y ∧ (identical = true → x = y)
  end.
Proof.
  destruct st as [[best_ratio best] eq]. intros (H1 & H2 & H3). unfold chosen.
  destruct (PrimFloat.ltb best_ratio 0.75) eqn:Er.
  - destruct eq as [[eqi eqj]|]; [|done].
    destruct (H3 eqi eqj eq_refl) as (? & ? & x & ? & ?). eauto 10.
  - destruct best as [[best_i best_j]|].
    + destruct (H2 best_i best_j eq_refl) as (? & ? & [x ?] & [y ?]).
      repeat split; try lia. exists x, y. by repeat split.
    + rewrite H1 in Er by done. vm_compute in Er. discriminate.
Qed.

Lemma slice_empty (x : list string) (lo hi : nat) : hi ≤ lo → slice x lo hi = [].
Proof. intros Hle. unfold slice. by replace (hi - lo) with 0 by lia. Qed.

Lemma fancy_helper_delta (fuel : nat)
    (replace : nat → nat → nat → nat → list string) :
  (∀ lo hi lo' hi', hi - lo ≤ fuel → lo < hi → lo' < hi' →
     delta_of (slice a lo hi) (slice b lo' hi') (replace lo hi lo' hi')) →
  ∀ lo hi lo' hi', hi - lo ≤ fuel →
    delta_of (slice a lo hi) (slice b lo' hi') (fancy_helper replace a lo hi b lo' hi').
Proof.
  intros Hrep lo hi lo' hi' Hfuel. unfold fancy_helper.
  destruct (lo <? hi) eqn:E1, (lo' <? hi') eqn:E2;
    first [apply Nat.ltb_lt in E1 | apply Nat.ltb_ge in E1];
    first [apply Nat.ltb_lt in E2 | apply Nat.ltb_ge in E2].
  - by apply Hrep.
  - rewrite (slice_empty b lo' hi') by done. apply dump_minus.
  - rewrite (slice_empty a lo hi) by done. apply dump_plus.
  - rewrite (slice_empty a lo hi), (slice_empty b lo' hi') by done.
    apply delta_of_nil.
Qed.

(** [_fancy_replace] gives a delta from [a[alo:ahi]] to [b[blo:bhi]]; fuel
    for the length of the first is enough. *)
Lemma fancy_replace_delta (fuel : nat) :
  ∀ alo ahi blo bhi, ahi - alo ≤ fuel → alo < ahi → blo < bhi →
    delta_of (slice a alo ahi) (slice b blo bhi)
             (fancy_replace charjunk fuel a alo ahi b blo bhi).
Proof.
  induction fuel as [|fuel IH]; intros alo ahi blo bhi Hfuel Ha Hb; [lia|].
  cbn [fancy_replace].
  pose proof (chosen_ok alo ahi blo bhi _
                (fold_pick_ok alo ahi blo bhi _ (0.74%float, None, None)
                   (pairs_in_range alo ahi blo bhi)
                   ltac:(by repeat split))) as Hch.
  destruct (chosen _) as [[[[best_i best_j] identical]|]|]; [| |done].
  - destruct Hch as (Hi & Hj & x & y & Hx & Hy & Hid). rewrite Hx, Hy.
    rewrite (slice_split a alo best_i ahi), (slice_split b blo best_j bhi) by lia.
    rewrite (slice_split a best_i (best_i + 1) ahi),
      (slice_split b best_j (best_j + 1) bhi) by lia.
    rewrite (slice_one a best_i x Hx), (slice_one b best_j y Hy).
    apply delta_of_app; [apply (fancy_helper_delta fuel); [|lia]|].
    { intros. apply IH; lia. }
    apply delta_of_app; [|apply (fancy_helper_delta fuel); [|lia]].
    + destruct identical.
      * rewrite <- (Hid eq_refl). apply delta_of_keep, delta_of_nil.
      * destruct (foldl tag_step _ _) as [atags btags]. apply qformat_delta.
    + intros. apply IH; lia.
  - apply plain_replace_delta.
Qed.

(** More fuel than the length of [a[alo:ahi]] changes nothing. *)
Lemma fancy_replace_fuel (fuel : nat) :
  ∀ fuel' alo ahi blo bhi, ahi - alo ≤ fuel → ahi - alo ≤ fuel' → alo < ahi →
    fancy_replace charjunk fuel a alo ahi b blo bhi
    = fancy_replace charjunk fuel' a alo ahi b blo bhi.
Proof.
  induction fuel as [|fuel IH]; intros fuel' alo ahi blo bhi H1 H2 Ha; [lia|].
  destruct fuel' as [|fuel']; [lia|]. cbn [fancy_replace].
  pose proof (chosen_ok alo ahi blo bhi _
                (fold_pick_ok alo ahi blo bhi _ (0.74%float, None, None)
                   (pairs_in_range alo ahi blo bhi)
                   ltac:(by repeat split))) as Hch.
  destruct (chosen _) as [[[[best_i best_j] identical]|]|]; [|done|done].
  destruct Hch as (Hi & Hj & _).
  destruct (a !! best_i); [|done]. destruct (b !! best_j); [|done].
  f_equal; [|f_equal]; unfold fancy_helper.
  - destruct (alo <? best_i) eqn:E; [|done].
    destruct (blo <? best_j); [|done].
    apply Nat.ltb_lt in E. apply IH; lia.
  - destruct (best_i + 1 <? ahi) eqn:E; [|done].
    destruct (best_j + 1 <? bhi); [|done].
    apply Nat.ltb_lt in E. apply IH; lia.
Qed.

Variable linejunk : option (string → bool).

Lemma compare_tiles (ops : list opcode) :
  ∀ i j i' j', tiles a b i j ops i' j' →
    delta_of (slice a i i') (slice b j j')
      (op ← ops;
       let '(tag, alo, ahi, blo, bhi) := op in
       match tag with
       | Replace => fancy_replace charjunk (ahi - alo) a alo ahi b blo bhi
       | Delete => dump "-" a alo ahi
       | Insert => dump "+" b blo bhi
       | Equal => dump " " a alo ahi
       end).
Proof.
  induction ops as [|[[[[tag i1] i2] j1] j2] ops IH]; intros i j i' j'; simpl.
  - intros [<- <-]. rewrite !slice_nil. apply delta_of_nil.
  - intros (-> & -> & Hi & Hj & Htag & Hrest).
    destruct (tiles_le _ _ _ _ _ _ _ Hrest) as [Hi' Hj'].
    rewrite (slice_split a i i2 i'), (slice_split b j j2 j') by lia.
    apply delta_of_app; [|by apply IH]. destruct tag.
    + destruct Htag. apply fancy_replace_delta; lia.
    + destruct Htag as [_ <-]. rewrite slice_nil. apply dump_minus.
    + destruct Htag as [<- _]. rewrite slice_nil. apply dump_plus.
    + destruct Htag as [Hlen Hag]. apply agree_slices in Hag.
      replace (i + (i2 - i)) with i2 in Hag by lia.
      replace (j + (i2 - i)) with j2 in Hag by lia.
      rewrite <- Hag. apply dump_keep.
Qed.

(** [Differ.compare] gives a delta from [a] to [b]. *)
Lemma compare_delta : delta_of a b (compare linejunk charjunk a b).
Proof.
  unfold compare.
  pose proof (compare_tiles _ _ _ _ _ (get_opcodes_tiles linejunk true a b)) as Hd.
  by rewrite !slice_all in Hd.
Qed.

End Replace.

(** [ndiff] obeys the contract of its delta format for all inputs. *)
Lemma ndiff_delta (a b : list string) : delta_of a b (ndiff a b).
Proof. apply compare_delta. Qed.

End DifferFacts.

(** ** Reconstruction *)

Section Reconstruction.
Import PyStr Tool Rows Report Delta.

Lemma split_numbered (first : nat) (lines : list string) :
  split_entry <$> numbered first lines
  = imap (λ i line, Ok (str (first + i), rstrip line)) lines.
Proof.
  unfold numbered. rewrite fmap_imap. apply imap_ext.
  intros i line _. apply split_entry_show.
Qed.

(** C1: for all inputs, the non-gap entries of the new side that
    [compare_files] returns are, in row order, the lines of the new file,
    each stripped of its trailing whitespace and behind its line number from
    1, and the renderer reads the number and the stripped line back from
    each; the same holds of the old side and the old file. *)
Theorem compare_files_reconstruction (old new : list string) :
  non_gap (align (Difflib.ndiff old new)).1
  = imap (λ i line, str (1 + i) +:+ " " +:+ rstrip line) new
  ∧ split_entry <$> non_gap (align (Difflib.ndiff old new)).1
    = imap (λ i line, Ok (str (1 + i), rstrip line)) new
  ∧ non_gap (align (Difflib.ndiff old new)).2
    = imap (λ i line, str (1 + i) +:+ " " +:+ rstrip line) old
  ∧ split_entry <$> non_gap (align (Difflib.ndiff old new)).2
    = imap (λ i line, Ok (str (1 + i), rstrip line)) old.
Proof.
  destruct (align_sides old new _ (ndiff_delta old new)) as [Hnew Hold].
  rewrite Hnew, Hold, !split_numbered. done.
Qed.

End Reconstruction.

(** ** Instances *)

Section Instances.
Import PyStr Tool Rows Report Cases.

Lemma create_excel_highlight_exact_witness :
  (create_excel ["1 a"; ""; "2 x"; "3 c"] ["1 a"; "2 b"; ""; "3 c"]
                "out.xlsx" sample_world).1 = Ok ()
  ∧ ∃ wb,
      files (create_excel ["1 a"; ""; "2 x"; "3 c"] ["1 a"; "2 b"; ""; "3 c"]
                          "out.xlsx" sample_world).2 !! "out.xlsx"
      = Some (Xlsx wb)
      ∧ Forall2 row_renders
                (zip ["1 a"; ""; "2 x"; "3 c"] ["1 a"; "2 b"; ""; "3 c"])
                (cells wb)
      ∧ Forall highlight_exact (cells wb).
Proof.
  split; [vm_compute; reflexivity|].
  apply create_excel_highlight_exact. vm_compute. reflexivity.
Defined.

Lemma blank_line_row_not_highlighted_witness :
  (startswith "+" "+   " = true ∨ startswith "-" "+   " = true)
  ∧ rstrip (slice_from 2 "+   ") = ""
  ∧ ∃ entry_new entry_old new_number old_number,
      new_lines (body locals0 "+   ") = new_lines locals0 ++ [entry_new]
      ∧ old_lines (body locals0 "+   ") = old_lines locals0 ++ [entry_old]
      ∧ (entry_new ≠ "" ∨ entry_old ≠ "")
      ∧ render_row entry_new entry_old
        = Ok (report_row new_number "" old_number "" None None).
Proof.
  split; [left; reflexivity|]. split; [reflexivity|].
  apply blank_line_row_not_highlighted; [left; reflexivity | reflexivity].
Defined.

Lemma create_excel_column_widths_witness :
  max_column sample_sheet ≤ 4
  ∧ measure_columns sample_sheet = Ok [2; 2; 0; 4].
Proof.
  split; [vm_compute; lia|].
  apply (create_excel_column_widths sample_sheet). vm_compute. lia.
Defined.

Lemma main_input_read_error_witness :
  ∃ e evs,
    (main sample_world_missing).1 = Raise e
    ∧ (e = FileNotFoundError ∨ e = UnicodeDecodeError)
    ∧ files (main sample_world_missing).2 = files sample_world_missing
    ∧ trace (main sample_world_missing).2
      = trace sample_world_missing ++ prompts ++ evs
    ∧ Forall (λ ev, ∃ path, ev = Opened path) evs.
Proof.
  apply (main_input_read_error sample_world_missing
           "new.txt" "old.txt" "out.xlsx" []); [reflexivity|].
  left. intros [content Hcontent]. vm_compute in Hcontent. discriminate.
Defined.

Lemma main_paths_used_witness :
  ∃ evs,
    trace (main sample_world).2 = trace sample_world ++ evs
    ∧ accesses evs `prefix_of` [ Opened "old.txt"; Opened "new.txt";
                                 Saved (quoted "out.xlsx") ]
    ∧ ((main sample_world).1 = Ok () →
       accesses evs = [ Opened "old.txt"; Opened "new.txt";
                        Saved (quoted "out.xlsx") ]).
Proof.
  apply (main_paths_used sample_world (quoted "new.txt") (quoted "old.txt")
           (quoted "out.xlsx") []).
  reflexivity.
Defined.

(** C6, as stated, fails on the output path: with every answer in quotes
    the two input files are opened under their bare names, and the workbook
    is saved under the name with its quotes. *)
Lemma main_output_path_keeps_quotes :
  stdin sample_world = [quoted "new.txt"; quoted "old.txt"; quoted "out.xlsx"]
  ∧ (main sample_world).1 = Ok ()
  ∧ accesses (trace (main sample_world).2)
    = [ Opened (strip_char quote (quoted "old.txt"));
        Opened (strip_char quote (quoted "new.txt"));
        Saved (quoted "out.xlsx") ]
  ∧ accesses (trace (main sample_world).2)
    ≠ [ Opened (strip_char quote (quoted "old.txt"));
        Opened (strip_char quote (quoted "new.txt"));
        Saved (strip_char quote (quoted "out.xlsx")) ]
  ∧ files (main sample_world).2 !! "out.xlsx" = None
  ∧ is_Some (files (main sample_world).2 !! quoted "out.xlsx").
Proof.
  split; [reflexivity|]. split; [vm_compute; reflexivity|].
  split; [vm_compute; reflexivity|]. split; [vm_compute; discriminate|].
  split; [vm_compute; reflexivity|]. vm_compute. eexists. reflexivity.
Qed.

(** C5: for [old = ["a","b","c"]] and [new = ["a","x","c"]] the delta is
    [  a], [- b], [+ x], [  c], and the report has exactly four rows in this
    order: [a]/[a] numbered 1/1, unfilled; a gap beside old [b] numbered 2,
    filled red; new [x] numbered 2 beside a gap, filled green; [c]/[c]
    numbered 3/3, unfilled.  The replaced line is a deletion row followed
    by an insertion row. *)
Theorem mixed_case_rows :
  Difflib.ndiff ["a"; "b"; "c"] ["a"; "x"; "c"] = ["  a"; "- b"; "+ x"; "  c"]
  ∧ align (Difflib.ndiff ["a"; "b"; "c"] ["a"; "x"; "c"])
    = (["1 a"; ""; "2 x"; "3 c"], ["1 a"; "2 b"; ""; "3 c"])
  ∧ expand 1 1 (script (Difflib.ndiff ["a"; "b"; "c"] ["a"; "x"; "c"]))
    = [ (Some (1, "a"), Some (1, "a"));
        (gap, Some (2, "b"));
        (Some (2, "x"), gap);
        (Some (3, "c"), Some (3, "c")) ]
  ∧ render_rows (zip ["1 a"; ""; "2 x"; "3 c"] ["1 a"; "2 b"; ""; "3 c"])
    = Ok [ report_row "1" "a" "1" "a" None None;
           report_row "" "" "2" "b" None (Some FFFF0000);
           report_row "2" "x" "" "" (Some FF00FF00) None;
           report_row "3" "c" "3" "c" None None ]
  ∧ (compare_files "new.txt" "old.txt" sample_world).1
    = Ok (["1 a"; ""; "2 x"; "3 c"], ["1 a"; "2 b"; ""; "3 c"]).
Proof. repeat split; vm_compute; reflexivity. Qed.

End Instances.

(** ** Reading files *)

Section ReadFacts.
Import PyStr Tool Rows Report Cases.

Lemma splitlines_bounded (n : nat) :
  ∀ s, String.length s ≤ n → Forall no_linebreak (splitlines s).
Proof.
  induction n as [|n IH]; intros [|c s'] Hlen; simpl in Hlen;
    try (by constructor); try lia.
  cbn [splitlines]. destruct (linebreak c) eqn:Ec.
  - destruct s' as [|c' s'']; [by repeat constructor|].
    simpl in Hlen.
    destruct (_ && _); (constructor; [done|]); apply IH; simpl; lia.
  - pose proof (IH s' ltac:(lia)) as Hs'.
    destruct (splitlines s') as [|line lines]; [by repeat constructor|].
    apply Forall_cons in Hs' as [Hline Hlines]. by repeat constructor.
Qed.

(** X1: the lines [read_file] returns hold no line terminator: no line
    feed, carriage return, vertical tab, form feed, or one of the separators
    28, 29, 30 and 133. *)
Theorem read_file_lines_unbroken (filename : string) (w : world)
    (lines : list string) :
  (read_file filename w).1 = Ok lines → Forall no_linebreak lines.
Proof.
  rewrite read_file_run. cbn [fst].
  destruct (files w !! filename) as [[content| |wb]|]; try discriminate.
  intros [= <-]. by eapply splitlines_bounded.
Qed.

Lemma splitlines_line (line rest : string) :
  no_linebreak line →
  splitlines (line +:+ String (ascii_of_nat 10) rest) = line :: splitlines rest.
Proof.
  induction line as [|c line IH].
  - intros _. rewrite append_nil_l. cbn [splitlines].
    change (linebreak (ascii_of_nat 10)) with true. cbv iota.
    by destruct rest.
  - intros [Hc Hline]. rewrite append_cons. cbn [splitlines].
    rewrite Hc, (IH Hline). done.
Qed.

Lemma splitlines_lines_of (lines : list string) :
  Forall no_linebreak lines → splitlines (lines_of lines) = lines.
Proof.
  induction 1 as [|line lines Hline _ IH]; [done|].
  cbn [lines_of foldr].
  change (line +:+ Difflib.newline +:+ foldr (λ line rest, line +:+ Difflib.newline +:+ rest) "" lines)
    with (line +:+ String (ascii_of_nat 10) (lines_of lines)).
  by rewrite splitlines_line, IH.
Qed.

(** X2: a file that holds lines without line terminators, each followed by
    a line feed, is read back as exactly those lines; the file store is not
    changed. *)
Theorem read_file_round_trip (filename : string) (w : world)
    (lines : list string) :
  Forall no_linebreak lines →
  files w !! filename = Some (Text (lines_of lines)) →
  read_file filename w = (Ok lines, log w [Opened filename]).
Proof.
  intros Hlines Hfile. rewrite read_file_run, Hfile.
  by rewrite splitlines_lines_of.
Qed.

(** X3: [compare_files] only reads.  It leaves the file store and the
    pending input as they are; it opens the old file first and the new file
    only when the old one was read, so that an unreadable old file is the
    error that is raised. *)
Theorem compare_files_only_reads (new_file old_file : string) (w : world) :
  files (compare_files new_file old_file w).2 = files w
  ∧ stdin (compare_files new_file old_file w).2 = stdin w
  ∧ match files w !! old_file with
    | Some (Text _) =>
        trace (compare_files new_file old_file w).2
        = trace w ++ [Opened old_file; Opened new_file]
    | Some _ =>
        compare_files new_file old_file w
        = (Raise UnicodeDecodeError, log w [Opened old_file])
    | None =>
        compare_files new_file old_file w
        = (Raise FileNotFoundError, log w [Opened old_file])
    end.
Proof.
  rewrite compare_files_run.
  destruct (files w !! old_file) as [[old| |wb]|]; by repeat split.
Qed.

End ReadFacts.

(** ** The rows over the two files *)

Section RowShapes.
Import PyStr Tool Rows Report Cases Delta.

Lemma expand_shows (ops : list op) :
  ∀ o n, Forall (entry_shows o n (omap old_text ops) (omap new_text ops))
                (expand o n ops).
Proof.
  induction ops as [|x ops IH]; intros o n; [constructor|].
  cbn [expand]. constructor.
  - destruct x as [t|t|t]; cbn [row_of omap list_omap old_text new_text].
    + left. exists 0, 0, t. by rewrite !Nat.add_0_r.
    + right; right. exists 0, t. by rewrite !Nat.add_0_r.
    + right; left. exists 0, t. by rewrite !Nat.add_0_r.
  - eapply Forall_impl; [apply IH|]. intros r Hr.
    destruct x as [t|t|t]; cbn [advance fst snd omap list_omap old_text new_text];
      cbn [advance fst snd] in Hr;
      destruct Hr as [(i & j & u & Hi & Hj & ->)|[(i & u & Hi & ->)|(j & u & Hj & ->)]].
    + left. exists (S i), (S j), u. repeat split; try done.
      by replace (n + S i) with (n + 1 + i) by lia;
         replace (o + S j) with (o + 1 + j) by lia.
    + right; left. exists (S i), u. split; [done|].
      by replace (n + S i) with (n + 1 + i) by lia.
    + right; right. exists (S j), u. split; [done|].
      by replace (o + S j) with (o + 1 + j) by lia.
    + left. exists i, (S j), u. repeat split; try done.
      by replace (o + S j) with (o + 1 + j) by lia.
    + right; left. by exists i, u.
    + right; right. exists (S j), u. split; [done|].
      by replace (o + S j) with (o + 1 + j) by lia.
    + left. exists (S i), j, u. repeat split; try done.
      by replace (n + S i) with (n + 1 + i) by lia.
    + right; left. exists (S i), u. split; [done|].
      by replace (n + S i) with (n + 1 + i) by lia.
    + right; right. by exists j, u.
Qed.

Lemma align_rows (diff : list string) :
  zip (align diff).1 (align diff).2
  = (λ r : entry * entry, (show r.1, show r.2)) <$> expand 1 1 (script diff).
Proof.
  rewrite align_expand. cbn [fst snd].
  apply (zip_fmap_fst_snd (show ∘ fst) (show ∘ snd)).
Qed.

(** X4: no row of [compare_files] is empty on both sides, whatever the
    delta. *)
Theorem compare_files_no_empty_row (diff : list string) :
  Forall (λ row : string * string, row.1 ≠ "" ∨ row.2 ≠ "")
         (zip (align diff).1 (align diff).2).
Proof.
  rewrite align_rows. apply Forall_fmap.
  eapply Forall_impl; [apply (expand_shows (script diff) 1 1)|].
  intros r [(i & j & t & _ & _ & ->)|[(i & t & _ & ->)|(j & t & _ & ->)]]; simpl.
  - left. apply truthy_true, (show_some_truthy (1 + i) (rstrip t)).
  - left. apply truthy_true, (show_some_truthy (1 + i) (rstrip t)).
  - right. apply truthy_true, (show_some_truthy (1 + j) (rstrip t)).
Qed.

(** X5: every row that [compare_files] returns for the files [old] and
    [new] shows real lines at their real numbers: either one line that
    stands in both files, stripped, numbered on each side by its place in
    that file, or a line of [new] beside a gap, or a gap beside a line of
    [old].  Two lines that differ are never put on one row. *)
Theorem compare_files_rows_show_lines (old new : list string) :
  Forall (row_shows old new)
         (zip (align (Difflib.ndiff old new)).1 (align (Difflib.ndiff old new)).2).
Proof.
  destruct (ndiff_delta old new) as (Hcoded & Hold & Hnew).
  destruct (restore_script _ Hcoded) as [H1 H2].
  rewrite align_rows. apply Forall_fmap.
  eapply Forall_impl; [apply (expand_shows (script (Difflib.ndiff old new)) 1 1)|].
  rewrite <- H1, <- H2, Hold, Hnew.
  intros r [(i & j & t & Hi & Hj & ->)|[(i & t & Hi & ->)|(j & t & Hj & ->)]];
    [left; by exists i, j, t | right; left; by exists i, t
    | right; right; by exists j, t].
Qed.

Lemma length_omap_side (ops : list op) :
  length (omap new_text ops) = count is_unchanged ops + count is_inserted ops
  ∧ length (omap old_text ops) = count is_unchanged ops + count is_deleted ops.
Proof.
  unfold count. induction ops as [|[t|t|t] ops [IH1 IH2]]; [done|..];
    cbn [omap list_omap new_text old_text]; rewrite !filter_cons;
    repeat case_decide; try discriminate; try done; simpl; lia.
Qed.

(** X6: the report for the files [old] and [new] has one row less than
    [len(old) + len(new)] for every unchanged line; so it has at least as
    many rows as the longer file has lines and at most as many as both
    together. *)
Theorem compare_files_row_bounds (old new : list string) :
  let rows := length (zip (align (Difflib.ndiff old new)).1
                          (align (Difflib.ndiff old new)).2) in
  rows + count is_unchanged (script (Difflib.ndiff old new))
  = length old + length new
  ∧ length old `max` length new ≤ rows
  ∧ rows ≤ length old + length new.
Proof.
  cbv zeta. rewrite align_rows, length_fmap, expand_length.
  destruct (ndiff_delta old new) as (Hcoded & Hold & Hnew).
  destruct (restore_script _ Hcoded) as [H1 H2].
  destruct (length_omap_side (script (Difflib.ndiff old new))) as [L1 L2].
  rewrite <- H2, Hnew in L1. rewrite <- H1, Hold in L2.
  pose proof (count_total (script (Difflib.ndiff old new))). lia.
Qed.

End RowShapes.

(** ** One-sided comparisons *)

Section OneSided.
Import PyStr Tool Rows Report Cases Delta.

Lemma script_all_inserted (ops : list op) :
  omap old_text ops = [] → ops = Inserted <$> omap new_text ops.
Proof.
  induction ops as [|[t|t|t] ops IH]; cbn [omap list_omap old_text new_text];
    try done.
  intros H. csimpl. f_equal. by apply IH.
Qed.

Lemma script_all_deleted (ops : list op) :
  omap new_text ops = [] → ops = Deleted <$> omap old_text ops.
Proof.
  induction ops as [|[t|t|t] ops IH]; cbn [omap list_omap old_text new_text];
    try done.
  intros H. csimpl. f_equal. by apply IH.
Qed.

Lemma expand_inserted (l : list string) :
  ∀ o n, expand o n (Inserted <$> l)
         = imap (λ i t, (Some (n + i, rstrip t), gap)) l.
Proof.
  induction l as [|t l IH]; intros o n; [done|].
  csimpl. rewrite Nat.add_0_r. f_equal. rewrite IH.
  apply imap_ext. intros i x _. simpl. do 3 f_equal. lia.
Qed.

Lemma expand_deleted (l : list string) :
  ∀ o n, expand o n (Deleted <$> l)
         = imap (λ i t, (gap, Some (o + i, rstrip t))) l.
Proof.
  induction l as [|t l IH]; intros o n; [done|].
  csimpl. rewrite Nat.add_0_r. f_equal. rewrite IH.
  apply imap_ext. intros i x _. simpl. do 3 f_equal. lia.
Qed.

Lemma imap_to_replicate {A B} (y : B) (l : list A) :
  imap (λ _ _, y) l = replicate (length l) y.
Proof.
  induction l as [|x l IH]; [done|]. rewrite imap_cons. simpl. f_equal.
  exact IH.
Qed.

(** X7: against an empty old file every line of the new file is an
    insertion: the new side holds all its lines, stripped and numbered from
    1, and the old side holds only gaps. *)
Theorem compare_files_empty_old (new : list string) :
  align (Difflib.ndiff [] new)
  = (imap (λ i line, str (1 + i) +:+ " " +:+ rstrip line) new,
     replicate (length new) "").
Proof.
  destruct (ndiff_delta [] new) as (Hcoded & Hold & Hnew).
  destruct (restore_script _ Hcoded) as [H1 H2].
  rewrite Hold in H1. rewrite Hnew in H2.
  rewrite align_expand, (script_all_inserted _ (eq_sym H1)), <- H2.
  rewrite expand_inserted, !fmap_imap. f_equal.
  apply (imap_to_replicate "").
Qed.

(** X8: against an empty new file every line of the old file is a
    deletion: the old side holds all its lines, stripped and numbered from
    1, and the new side holds only gaps. *)
Theorem compare_files_empty_new (old : list string) :
  align (Difflib.ndiff old [])
  = (replicate (length old) "",
     imap (λ i line, str (1 + i) +:+ " " +:+ rstrip line) old).
Proof.
  destruct (ndiff_delta old []) as (Hcoded & Hold & Hnew).
  destruct (restore_script _ Hcoded) as [H1 H2].
  rewrite Hold in H1. rewrite Hnew in H2.
  rewrite align_expand, (script_all_deleted _ (eq_sym H2)), <- H1.
  rewrite expand_deleted, !fmap_imap. f_equal.
  apply (imap_to_replicate "").
Qed.

Lemma rstrip_idemp (s : string) : rstrip (rstrip s) = rstrip s.
Proof.
  induction s as [|c s IH]; [done|]. cbn [rstrip].
  destruct (rstrip s) as [|d r] eqn:E.
  - destruct (isspace c) eqn:Ec; [done|]. cbn [rstrip]. by rewrite Ec.
  - cbn [rstrip]. cbn [rstrip] in IH. rewrite IH. done.
Qed.

(** X9: no content that [compare_files] hands to the report ends in
    whitespace: every entry splits into a number and a content, and
    stripping the content again changes nothing. *)
Theorem compare_files_contents_stripped (diff : list string) :
  Forall (λ e, ∃ number content,
            split_entry e = Ok (number, content) ∧ rstrip content = content)
         ((align diff).1 ++ (align diff).2).
Proof.
  rewrite align_expand. cbn [fst snd].
  assert (Hside : ∀ e : entry,
             (e = None ∨ ∃ k t, e = Some (k, rstrip t)) →
             ∃ number content,
               split_entry (show e) = Ok (number, content)
               ∧ rstrip content = content).
  { intros e [->|(k & t & ->)].
    - by exists "", "".
    - exists (str k), (rstrip t). split; [apply split_entry_show|].
      apply rstrip_idemp. }
  pose proof (expand_shows (script diff) 1 1) as Hrows.
  apply Forall_app. split; apply Forall_fmap;
    (eapply Forall_impl; [exact Hrows|]); intros r Hr; apply Hside;
    destruct Hr as [(i & j & t & _ & _ & ->)|[(i & t & _ & ->)|(j & t & _ & ->)]];
    simpl; eauto.
Qed.

End OneSided.

(** ** Rendering: fills by operation, malformed entries, truncation *)

Section RenderFacts.
Import PyStr Tool Rows Report Cases.

Lemma split_entry_numbered (number : nat) (text : string) :
  split_entry (str number +:+ " " +:+ text) = Ok (str number, text).
Proof. exact (split_entry_show number text). Qed.

(** X10: the fills follow the operations.  The row of a line of the delta
    is filled green exactly when the line is an insertion whose stripped
    text is not empty, red exactly when it is a deletion whose stripped text
    is not empty; the row of an unchanged line is never filled.  The cells
    hold what is kept of the line number and of the stripped text, beside
    empty cells for a gap; when the stripped text cannot be written to a
    cell, no row is made and [IllegalCharacterError] is raised. *)
Theorem highlight_follows_operation (st : locals) (line : string) :
  let text := rstrip (slice_from 2 line) in
  let unchanged := startswith " " line in
  let deleted := negb unchanged && startswith "-" line in
  let inserted :=
    negb unchanged && negb (startswith "-" line) && startswith "+" line in
  unchanged || deleted || inserted = true →
  ∃ entry_new entry_old,
    new_lines (body st line) = new_lines st ++ [entry_new]
    ∧ old_lines (body st line) = old_lines st ++ [entry_old]
    ∧ render_row entry_new entry_old
      = if storable text
        then Ok (report_row
                   (if deleted then "" else kept (str (new_line_number st)))
                   (if deleted then "" else kept text)
                   (if inserted then "" else kept (str (old_line_number st)))
                   (if inserted then "" else kept text)
                   (if inserted && truthy text then Some FF00FF00 else None)
                   (if deleted && truthy text then Some FFFF0000 else None))
        else Raise IllegalCharacterError.
Proof.
  cbv zeta. unfold body.
  destruct (startswith " " line) eqn:E1; [|destruct (startswith "-" line) eqn:E2;
    [|destruct (startswith "+" line) eqn:E3; [|discriminate]]]; intros _;
    cbn [negb andb orb].
  - eexists _, _. split; [reflexivity|]. split; [reflexivity|].
    rewrite (render_row_run _ _ _ _ _ _
               (split_entry_numbered (new_line_number st) _)
               (split_entry_numbered (old_line_number st) _)).
    rewrite !storable_str. cbn [andb].
    destruct (storable _); [|done]. cbn [andb]. by destruct (truthy _).
  - eexists _, _. split; [reflexivity|]. split; [reflexivity|].
    rewrite (render_row_run _ _ _ _ _ _
               (eq_refl : split_entry "" = Ok ("", ""))
               (split_entry_numbered (old_line_number st) _)).
    rewrite storable_str, storable_empty, kept_empty. cbn [andb truthy negb].
    destruct (storable _); [|done]. by destruct (truthy _).
  - eexists _, _. split; [reflexivity|]. split; [reflexivity|].
    rewrite (render_row_run _ _ _ _ _ _
               (split_entry_numbered (new_line_number st) _)
               (eq_refl : split_entry "" = Ok ("", ""))).
    rewrite storable_str, storable_empty, kept_empty. cbn [andb truthy negb].
    destruct (storable _); [|done]. cbn [andb]. by destruct (truthy _).
Qed.

Lemma split1_cases (sep : ascii) (s : string) :
  (split1 sep s = [s] ∧ lacks sep s)
  ∨ (∃ a b, split1 sep s = [a; b] ∧ ¬ lacks sep s).
Proof.
  induction s as [|c s IH]; [by left|]. cbn [split1 lacks].
  destruct (Ascii.eqb_spec c sep) as [->|Hne].
  - right. exists "", s. split; [done|]. by intros [? _].
  - destruct IH as [[-> Hl]|(a & b & -> & Hl)].
    + by left.
    + right. exists (String c a), b. split; [done|]. by intros [_ ?].
Qed.

Lemma split_entry_cases (s : string) :
  (malformed s ∧ split_entry s = Raise ValueError)
  ∨ (¬ malformed s ∧ ∃ number content, split_entry s = Ok (number, content)).
Proof.
  unfold split_entry, malformed. destruct s as [|c s].
  - right. split; [by intros [? _] | by exists "", ""].
  - cbn [truthy].
    destruct (split1_cases " " (String c s)) as [[-> Hl]|(a & b & -> & Hl)].
    + left. split; [split; [discriminate | exact Hl] | reflexivity].
    + right. split; [by intros [_ ?] | by exists a, b].
Qed.

Lemma fits_split (entry number content : string) :
  split_entry entry = Ok (number, content) →
  fits entry ↔ storable number && storable content = true.
Proof.
  intros Hs. split.
  - intros (n & c & Hnc%split_entry_splits & Hn & Hc).
    rewrite Hs in Hnc. simplify_eq. by rewrite Hn, Hc.
  - intros [Hn Hc]%andb_prop. exists number, content.
    split; [by apply split_entry_splits | done].
Qed.

Lemma malformed_not_fits (entry : string) : malformed entry → ¬ fits entry.
Proof.
  intros Hm (n & c & Hnc%split_entry_splits & _).
  destruct (split_entry_cases entry) as [[_ Hs]|[Hs _]]; [|done].
  by rewrite Hs in Hnc.
Qed.

(** The three ways an iteration of the row loop ends. *)
Lemma render_row_cases (line_new line_old : string) :
  ((malformed line_new ∨ malformed line_old)
   ∧ render_row line_new line_old = Raise ValueError)
  ∨ (¬ (malformed line_new ∨ malformed line_old)
     ∧ ¬ (fits line_new ∧ fits line_old)
     ∧ render_row line_new line_old = Raise IllegalCharacterError)
  ∨ (fits line_new ∧ fits line_old
     ∧ ∃ row, render_row line_new line_old = Ok row).
Proof.
  destruct (split_entry_cases line_new) as [[Hn Hsn]|[Hn (n1 & c1 & Hsn)]].
  { left. split; [by left|]. unfold render_row. by rewrite Hsn. }
  destruct (split_entry_cases line_old) as [[Ho Hso]|[Ho (n2 & c2 & Hso)]].
  { left. split; [by right|]. unfold render_row. by rewrite Hsn, Hso. }
  right. rewrite (render_row_run _ _ _ _ _ _ Hsn Hso).
  pose proof (fits_split _ _ _ Hsn) as Fn.
  pose proof (fits_split _ _ _ Hso) as Fo.
  destruct (storable n1 && storable c1) eqn:E1; cbn [andb].
  - destruct (storable n2 && storable c2) eqn:E2.
    + right. split; [by apply Fn|]. split; [by apply Fo|]. by eexists.
    + left. split; [tauto|]. split; [|done]. intros [_ F]. apply Fo in F. done.
  - left. split; [tauto|]. split; [|done].
    intros [F _]. apply Fn in F. done.
Qed.

(** The row loop stops at the first pair of entries that cannot be
    written, with the error of that pair. *)
Lemma render_rows_cases (rows : list (string * string)) :
  (Forall (λ r, fits r.1 ∧ fits r.2) rows ∧ ∃ ws, render_rows rows = Ok ws)
  ∨ (∃ pre r post e,
       rows = pre ++ r :: post
       ∧ Forall (λ r, fits r.1 ∧ fits r.2) pre
       ∧ render_row r.1 r.2 = Raise e
       ∧ render_rows rows = Raise e).
Proof.
  induction rows as [|[ln lo] rows IH]; [left; split; [constructor | by eexists]|].
  cbn [render_rows].
  destruct (render_row_cases ln lo)
    as [[_ Hr]|[(_ & _ & Hr)|(Fn & Fo & row & Hr)]].
  - right. exists [], (ln, lo), rows, ValueError. by rewrite Hr.
  - right. exists [], (ln, lo), rows, IllegalCharacterError. by rewrite Hr.
  - rewrite Hr.
    destruct IH as [[Hall (ws & ->)]|(pre & r & post & e & -> & Hpre & Hre & ->)].
    + left. split; [by constructor | by eexists].
    + right. exists ((ln, lo) :: pre), r, post, e.
      split; [done|]. split; [by constructor | done].
Qed.

Lemma render_rows_fault (pre post : list (string * string))
    (r : string * string) (e : exn) :
  Forall (λ r, fits r.1 ∧ fits r.2) pre →
  render_row r.1 r.2 = Raise e →
  render_rows (pre ++ r :: post) = Raise e.
Proof.
  intros Hpre Hr. induction Hpre as [|[ln lo] pre [Fn Fo] _ IH].
  - destruct r as [ln lo]. cbn [app render_rows]. simpl in Hr. by rewrite Hr.
  - cbn [app render_rows].
    destruct (render_row_cases ln lo)
      as [[Hm _]|[(_ & Hf & _)|(_ & _ & row & ->)]].
    + destruct Hm as [Hm|Hm]; by apply malformed_not_fits in Hm.
    + by destruct Hf.
    + simpl in IH. by rewrite IH.
Qed.

Lemma create_excel_fault (new_lines old_lines : list string)
    (output_file : string) (w : world) (e : exn) :
  e = ValueError ∨ e = IllegalCharacterError →
  (create_excel new_lines old_lines output_file w).1 = Raise e
  ↔ render_rows (zip new_lines old_lines) = Raise e.
Proof.
  intros He. rewrite create_excel_run.
  destruct (render_rows (zip new_lines old_lines)) as [ws|e'] eqn:Hws; cbn [fst].
  - destruct (render_rows_ok _ _ Hws) as [_ Hmax].
    rewrite (measure_columns_widths ws Hmax).
    destruct (writable w output_file); cbn [fst];
      split; try discriminate; intros [= <-]; by destruct He.
  - split; by intros [= ->].
Qed.

(** X11: the two errors of the row loop of [create_excel].  The loop stops
    at the first pair of entries that cannot be written.  [ValueError] is
    raised exactly when one entry of that pair is not empty and holds no
    blank, so that it cannot be split in two; [IllegalCharacterError] exactly
    when both entries of that pair split and a part holds a control character.
    In both cases nothing is saved and the world is as it was. *)
Theorem create_excel_value_error
    (new_lines old_lines : list string) (output_file : string) (w : world) :
  ((create_excel new_lines old_lines output_file w).1 = Raise ValueError
   ↔ ∃ pre r post,
       zip new_lines old_lines = pre ++ r :: post
       ∧ Forall (λ r, fits r.1 ∧ fits r.2) pre
       ∧ (malformed r.1 ∨ malformed r.2))
  ∧ ((create_excel new_lines old_lines output_file w).1
     = Raise IllegalCharacterError
     ↔ ∃ pre r post,
         zip new_lines old_lines = pre ++ r :: post
         ∧ Forall (λ r, fits r.1 ∧ fits r.2) pre
         ∧ ¬ (malformed r.1 ∨ malformed r.2)
         ∧ ¬ (fits r.1 ∧ fits r.2))
  ∧ ((create_excel new_lines old_lines output_file w).1 = Raise ValueError
     ∨ (create_excel new_lines old_lines output_file w).1
       = Raise IllegalCharacterError
     → (create_excel new_lines old_lines output_file w).2 = w).
Proof.
  split; [|split].
  - rewrite create_excel_fault by auto. split.
    + intros Hr.
      destruct (render_rows_cases (zip new_lines old_lines))
        as [[_ (ws & Hws)]|(pre & r & post & e & Hz & Hpre & Hre & Hrs)];
        [by rewrite Hws in Hr|].
      rewrite Hrs in Hr. simplify_eq. exists pre, r, post.
      split; [done|]. split; [done|].
      destruct (render_row_cases r.1 r.2)
        as [[Hm _]|[(_ & _ & Hr)|(_ & _ & row & Hr)]];
        [done | by rewrite Hr in Hre..].
    + intros (pre & r & post & -> & Hpre & Hm).
      apply render_rows_fault; [done|].
      destruct (render_row_cases r.1 r.2)
        as [[_ Hr]|[(Hn & _)|(Fn & Fo & _)]]; [done | done |].
      destruct Hm as [Hm|Hm]; by apply malformed_not_fits in Hm.
  - rewrite create_excel_fault by auto. split.
    + intros Hr.
      destruct (render_rows_cases (zip new_lines old_lines))
        as [[_ (ws & Hws)]|(pre & r & post & e & Hz & Hpre & Hre & Hrs)];
        [by rewrite Hws in Hr|].
      rewrite Hrs in Hr. simplify_eq. exists pre, r, post.
      split; [done|]. split; [done|].
      destruct (render_row_cases r.1 r.2)
        as [[_ Hr]|[(Hm & Hf & _)|(_ & _ & row & Hr)]];
        [by rewrite Hr in Hre | done | by rewrite Hr in Hre].
    + intros (pre & r & post & -> & Hpre & Hm & Hf).
      apply render_rows_fault; [done|].
      destruct (render_row_cases r.1 r.2)
        as [[Hm' _]|[(_ & _ & Hr)|(Fn & Fo & _)]]; [done | done |].
      by destruct Hf.
  - rewrite create_excel_run.
    destruct (render_rows (zip new_lines old_lines)) as [ws|e] eqn:Hws; [|done].
    destruct (render_rows_ok _ _ Hws) as [_ Hmax].
    rewrite (measure_columns_widths ws Hmax).
    destruct (writable w output_file); cbn [fst]; intros [?|?]; discriminate.
Qed.

(** X12: [create_excel] pairs the entries with [zip]: a successful run
    writes as many rows as the shorter list has entries, and the entries
    beyond that are left out without an error. *)
Theorem create_excel_row_number
    (new_lines old_lines : list string) (output_file : string) (w : world) :
  (create_excel new_lines old_lines output_file w).1 = Ok () →
  ∃ wb, files (create_excel new_lines old_lines output_file w).2 !! output_file
        = Some (Xlsx wb)
        ∧ length (cells wb) = length new_lines `min` length old_lines.
Proof.
  rewrite create_excel_run.
  destruct (render_rows (zip new_lines old_lines)) as [ws|e] eqn:Hws;
    [|discriminate].
  destruct (render_rows_ok _ _ Hws) as [Hlen Hmax].
  rewrite (measure_columns_widths ws Hmax).
  destruct (writable w output_file); [|discriminate]. intros _.
  eexists. cbn [snd files]. rewrite lookup_insert_eq. split; [reflexivity|].
  cbn [cells]. by rewrite Hlen, length_zip.
Qed.

End RenderFacts.

(** ** Runs of [main] *)

Section MainRuns.
Import PyStr Tool Rows Report Cases Delta.

(** X13: with fewer than three answers on the standard input, [main] ends
    with [EOFError] at the first prompt that finds no answer; no file is
    opened or saved. *)
Theorem main_needs_three_answers (w : world) :
  length (stdin w) < 3 →
  (main w).1 = Raise EOFError
  ∧ files (main w).2 = files w
  ∧ trace (main w).2 = trace w ++ take (S (length (stdin w))) prompts.
Proof.
  destruct w as [sin fs wr tr]. cbn [stdin files trace].
  destruct sin as [|a [|b [|c sin]]]; simpl; intros Hlen; try lia;
    unfold main, input, emit, readline; io_run; simpl;
    rewrite <- ?app_assoc; done.
Qed.

(** *** The rows of two files in the sheet *)












Lemma rstrip_char_snoc (q : ascii) (s : string) :
  rstrip_char q (s +:+ String q "") = rstrip_char q s.
Proof.
  induction s as [|c s IH].
  - rewrite append_nil_l. cbn [rstrip_char]. by rewrite Ascii.eqb_refl.
  - rewrite append_cons. cbn [rstrip_char]. by rewrite IH.
Qed.

Lemma lstrip_char_snoc (q : ascii) (s : string) :
  lstrip_char q (s +:+ String q "")
  = match lstrip_char q s with
    | EmptyString => EmptyString
    | r => r +:+ String q ""
    end.
Proof.
  induction s as [|c s IH].
  - rewrite append_nil_l. cbn [lstrip_char]. by rewrite Ascii.eqb_refl.
  - rewrite append_cons. cbn [lstrip_char].
    destruct (Ascii.eqb c q); [exact IH|]. by rewrite append_cons.
Qed.

Lemma strip_quoted (p : string) :
  strip_char quote (quoted p) = strip_char quote p.
Proof.
  unfold strip_char, quoted. cbn [lstrip_char]. rewrite Ascii.eqb_refl.
  rewrite lstrip_char_snoc. destruct (lstrip_char quote p) as [|c r]; [done|].
  apply rstrip_char_snoc.
Qed.

(** X16: putting the two input paths between double quotes changes
    nothing: [main] runs on the quoted answers as on the bare ones. *)
Theorem main_ignores_quotes (w : world) (p_new p_old p_out : string)
    (rest : list string) :
  main (World (quoted p_new :: quoted p_old :: p_out :: rest)
              (files w) (writable w) (trace w))
  = main (World (p_new :: p_old :: p_out :: rest)
                (files w) (writable w) (trace w)).
Proof.
  rewrite (main_run (World (quoted p_new :: quoted p_old :: p_out :: rest)
                           (files w) (writable w) (trace w))
             (quoted p_new) (quoted p_old) p_out rest eq_refl).
  rewrite (main_run (World (p_new :: p_old :: p_out :: rest)
                           (files w) (writable w) (trace w))
             p_new p_old p_out rest eq_refl).
  by rewrite !strip_quoted.
Qed.

End MainRuns.

Section DiagonalFacts.
Import Difflib Matching Diagonal.
Context `{Countable A}.
Variable autojunk : bool.
Variable a : list A.

Lemma b2j_fold (l : list A) :
  ∀ (k : nat) (m : gmap A (list nat)) (x : A),
    foldl (λ (m : gmap A (list nat)) (ie : nat * A),
             <[ie.2 := default [] (m !! ie.2) ++ [ie.1]]> m)
          m (imap (λ i, pair (k + i)) l) !! x
    = extended (m !! x) (positions_from k l x).
Proof.
  induction l as [|y l IH]; intros k m x.
  - simpl. destruct (m !! x); simpl; by rewrite ?app_nil_r.
  - rewrite imap_cons. cbn [foldl positions_from snd fst].
    rewrite (imap_ext _ (λ i, pair (S k + i))) by (intros; simpl; f_equal; lia).
    rewrite IH, Nat.add_0_r. destruct (decide (y = x)) as [->|Hne].
    + rewrite lookup_insert_eq. simpl.
      destruct (m !! x) as [d|]; simpl; by rewrite <- ?app_assoc.
    + by rewrite lookup_insert_ne.
Qed.

Lemma b2j_all_positions (l : list A) (x : A) :
  b2j_all l !! x = extended None (positions_from 0 l x).
Proof.
  unfold b2j_all.
  change (imap pair l) with (imap (λ i, pair (0 + i)) l).
  by rewrite b2j_fold, lookup_empty.
Qed.

Lemma b2j_positions (x : A) (js : list nat) :
  b2j None autojunk a !! x = Some js → js = positions_from 0 a x.
Proof.
  unfold b2j, b2j_nojunk.
  intros [[Hl _]%map_lookup_filter_Some _]%map_lookup_filter_Some.
  rewrite b2j_all_positions in Hl. simpl in Hl.
  destruct (positions_from 0 a x); by simplify_eq.
Qed.

Lemma positions_bounds (l : list A) (x : A) :
  ∀ k j, j ∈ positions_from k l x → k ≤ j ∧ l !! (j - k) = Some x.
Proof.
  induction l as [|y l IH]; intros k j; cbn [positions_from].
  - by intros ?%elem_of_nil.
  - intros [Hj|Hj]%elem_of_app.
    + destruct (decide (y = x)) as [->|]; [|by apply elem_of_nil in Hj].
      apply list_elem_of_singleton in Hj as ->. by rewrite Nat.sub_diag.
    + destruct (IH _ _ Hj) as [Hk Hl]. split; [lia|].
      by replace (j - k) with (S (j - S k)) by lia.
Qed.

Lemma positions_complete (l : list A) (x : A) :
  ∀ k i, l !! i = Some x → k + i ∈ positions_from k l x.
Proof.
  induction l as [|y l IH]; intros k i; [done|]. cbn [positions_from].
  destruct i as [|i]; simpl.
  - intros [= ->]. rewrite decide_True by done. rewrite Nat.add_0_r.
    apply elem_of_app. left. by apply list_elem_of_singleton.
  - intros Hi. apply elem_of_app. right.
    replace (k + S i) with (S k + i) by lia. by apply IH.
Qed.

Lemma positions_sorted (l : list A) (x : A) :
  ∀ k, StronglySorted lt (positions_from k l x).
Proof.
  induction l as [|y l IH]; intros k; cbn [positions_from]; [constructor|].
  destruct (decide (y = x)); [|apply IH]. simpl. constructor; [apply IH|].
  apply Forall_forall. intros j Hj. apply positions_bounds in Hj. lia.
Qed.

Lemma run_present (j : nat) (x : A) :
  a !! j = Some x → present autojunk a x = true →
  run autojunk a j
  = S (match j with O => 0 | S j' => run autojunk a j' end).
Proof. intros Hj Hx. destruct j; simpl; by rewrite Hj, Hx. Qed.

Lemma run_le (r : nat) : run autojunk a r ≤ S r.
Proof.
  induction r as [|r IH]; simpl.
  - destruct (a !! 0); [destruct (present _ _ _)|]; lia.
  - destruct (a !! S r); [destruct (present _ _ _)|]; lia.
Qed.

Lemma step_value (i j : nat) (x : A) (j2len : gmap nat nat) :
  cols_done autojunk a i j2len →
  a !! i = Some x → a !! j = Some x → present autojunk a x = true →
  let k := match j with O => 0 | S j' => default 0 (j2len !! j') end + 1 in
  k ≤ run autojunk a j ∧ k ≤ run autojunk a i ∧ (j = i → k = run autojunk a i).
Proof.
  intros [Hle Hdiag] Hi Hj Hx.
  rewrite (run_present i x Hi Hx), (run_present j x Hj Hx).
  destruct j as [|j']; cbv zeta.
  - repeat split; [lia|lia|]. intros <-. simpl. lia.
  - destruct (j2len !! j') as [k'|] eqn:E; simpl.
    + destruct (Hle _ _ E) as [Hk (i' & -> & Hk')].
      split; [lia|]. split; [lia|]. intros [= ->].
      destruct (decide (0 < run autojunk a i')) as [Hpos|Hz].
      * rewrite (Hdiag i' eq_refl Hpos) in E. simplify_eq. lia.
      * lia.
    + split; [lia|]. split; [destruct i; lia|]. intros <-.
      destruct (decide (0 < run autojunk a j')) as [Hpos|Hz]; [|lia].
      by rewrite (Hdiag j' eq_refl Hpos) in E.
Qed.

Lemma scan_row_diagonal (i : nat) (x : A) (j2len : gmap nat nat) :
  a !! i = Some x → present autojunk a x = true →
  cols_done autojunk a i j2len →
  ∀ js new bst,
    StronglySorted lt js → Forall (λ j, a !! j = Some x) js →
    row_part autojunk a i js new bst →
    row_part autojunk a i []
      (scan_row 0 (length a) i j2len js new bst).1
      (scan_row 0 (length a) i j2len js new bst).2.
Proof.
  intros Hi Hx Hcols. induction js as [|j js IH]; intros new bst Hs Hall Hp.
  { exact Hp. }
  apply StronglySorted_inv in Hs as [Hs Hlt].
  apply Forall_cons in Hall as [Hj Hall].
  cbn [scan_row]. change (j <? 0) with false. cbv iota.
  assert (j < length a) as Hjn by (by eapply lookup_lt_Some).
  apply Nat.leb_gt in Hjn as Hjn'. rewrite Hjn'. cbv zeta.
  destruct (step_value i j x j2len Hcols Hi Hj Hx) as (Kj & Ki & Keq).
  cbv zeta in Kj, Ki, Keq.
  set (k := match j with O => 0 | S j' => default 0 (j2len !! j') end + 1) in *.
  apply IH; [done|done|].
  destruct Hp as (Hnew & Hd & Hb & Hbest & Hphase).
  assert (∀ j0 k0, <[j:=k]> new !! j0 = Some k0 →
            k0 ≤ run autojunk a j0 ∧ k0 ≤ run autojunk a i) as Hnew'.
  { intros j0 k0. destruct (decide (j0 = j)) as [->|Hne].
    - rewrite lookup_insert_eq. intros [= <-]. done.
    - rewrite lookup_insert_ne by done. apply Hnew. }
  destruct Hphase as [Hin|(Hgt & Hrun & Hat)].
  - apply elem_of_cons in Hin as [->|Hin].
    + (* the diagonal column *)
      specialize (Keq eq_refl). pose proof (run_le j) as Hle.
      destruct (bst.2 <? k) eqn:E;
        first [apply Nat.ltb_lt in E | apply Nat.ltb_ge in E].
      * split; [done|]. cbn [fst snd]. split; [done|]. split; [lia|].
        split; [intros r Hr; specialize (Hbest r Hr); lia|].
        right. split; [done|]. split; [lia|].
        by rewrite lookup_insert_eq, Keq.
      * split; [done|]. split; [done|]. split; [lia|]. split; [done|].
        right. split; [done|]. split; [lia|].
        by rewrite lookup_insert_eq, Keq.
    + (* a column before the diagonal *)
      assert (j < i) as Hji by (by eapply Forall_forall in Hlt).
      specialize (Hbest j Hji) as Hbj.
      assert ((bst.2 <? k) = false) as -> by (apply Nat.ltb_ge; lia).
      split; [done|]. split; [done|]. split; [done|]. split; [done|].
      by left.
  - (* a column after the diagonal *)
    apply Forall_cons in Hgt as [Hij Hgt].
    assert ((bst.2 <? k) = false) as -> by (apply Nat.ltb_ge; lia).
    split; [done|]. split; [done|]. split; [done|]. split; [done|].
    right. split; [done|]. split; [done|].
    rewrite lookup_insert_ne by lia. done.
Qed.

Lemma scan_rows_diagonal (len : nat) :
  ∀ m st,
    m + len ≤ length a →
    cols_done autojunk a m st.1 → best_done autojunk a m st.2 →
    let st' :=
      foldl (λ (st : gmap nat nat * block) (i : nat),
               match a !! i with
               | Some x =>
                   scan_row 0 (length a) i st.1
                     (default [] (b2j None autojunk a !! x)) ∅ st.2
               | None => (∅, st.2)
               end) st (seq m len) in
    best_done autojunk a (m + len) st'.2.
Proof.
  induction len as [|len IH]; intros m st Hm Hcols Hbest; cbv zeta.
  { by rewrite Nat.add_0_r. }
  cbn [seq foldl]. replace (m + S len) with (S m + len) by lia.
  destruct (lookup_lt_is_Some_2 a m) as [x Hx]; [lia|]. rewrite Hx.
  destruct Hbest as (Hd & Hb & Hruns).
  destruct (b2j None autojunk a !! x) as [js|] eqn:Ejs; cbn [default].
  - assert (present autojunk a x = true) as Hp.
    { unfold present. rewrite Ejs. by apply bool_decide_eq_true. }
    apply b2j_positions in Ejs as ->.
    destruct (scan_row_diagonal m x st.1 Hx Hp Hcols
                (positions_from 0 a x) ∅ st.2) as (Hnew & Hd' & Hb' & Hr' & Hph).
    { apply positions_sorted. }
    { apply Forall_forall. intros j Hj.
      apply positions_bounds in Hj as [_ Hj]. by rewrite Nat.sub_0_r in Hj. }
    { split; [by intros j k; rewrite lookup_empty|].
      split; [done|]. split; [lia|]. split; [done|].
      left. by apply (positions_complete a x 0 m). }
    destruct Hph as [[]%elem_of_nil|(_ & Hrun & Hat)].
    apply IH; [lia| |].
    + split.
      * intros j k Hjk. destruct (Hnew _ _ Hjk). split; [done|]. by exists m.
      * intros i' [= <-] _. done.
    + split; [done|]. split; [done|]. intros r Hr.
      destruct (decide (r = m)) as [->|]; [done|]. apply Hr'. lia.
  - assert (run autojunk a m = 0) as Hz.
    { assert (present autojunk a x = false) as Hp.
      { unfold present. rewrite Ejs. apply bool_decide_eq_false.
        by intros [? ?]. }
      destruct m; simpl; by rewrite Hx, Hp. }
    simpl. apply IH; [lia| |].
    + split; [by intros j k; cbn [fst]; rewrite lookup_empty|].
      intros i' [= <-]. lia.
    + split; [done|]. split; [simpl; lia|]. intros r Hr.
      destruct (decide (r = m)) as [->|]; [simpl; lia|]. apply Hruns. lia.
Qed.

Lemma scan_diagonal :
  ∃ d k, scan None autojunk a a 0 (length a) 0 (length a) = (d, d, k)
         ∧ d + k ≤ length a.
Proof.
  unfold scan. rewrite Nat.sub_0_r.
  destruct (scan_rows_diagonal (length a) 0 (∅, (0, 0, 0))) as (Hd & Hb & _).
  - simpl. lia.
  - split; [by intros j k; cbn [fst]; rewrite lookup_empty|]. by intros i' [=].
  - split; [done|]. split; [simpl; lia|]. intros r Hr. lia.
  - cbv zeta in Hd, Hb.
    destruct (foldl _ _ _).2 as [[d d'] k]. simpl in Hd, Hb. subst d'.
    by exists d, k.
Qed.

Lemma junk_at_none (j : nat) : junk_at None a j = false.
Proof.
  unfold junk_at, isbjunk, bjunk. destruct (a !! j); [|done].
  apply bool_decide_eq_false. apply not_elem_of_empty.
Qed.

Lemma same_at_diagonal (j : nat) : j < length a → same_at a a j j = true.
Proof.
  intros Hj. unfold same_at.
  destruct (lookup_lt_is_Some_2 a j Hj) as [x ->]. by apply bool_decide_eq_true.
Qed.

Lemma extend_down_diagonal (d : nat) :
  ∀ k, d ≤ length a → extend_down None a a false 0 0 d d k = (0, 0, k + d).
Proof.
  induction d as [|d IH]; intros k Hd; simpl.
  { by rewrite Nat.add_0_r. }
  rewrite Nat.sub_0_r, junk_at_none, same_at_diagonal by lia. simpl.
  rewrite IH by lia. f_equal. lia.
Qed.

Lemma extend_up_diagonal (fuel : nat) :
  ∀ k, k + fuel = length a →
       extend_up None a a false (length a) (length a) fuel 0 0 k = length a.
Proof.
  induction fuel as [|fuel IH]; intros k Hk; simpl; [lia|].
  assert ((k <? length a) = true) as -> by (apply Nat.ltb_lt; lia).
  rewrite junk_at_none, same_at_diagonal by lia. simpl. apply IH. lia.
Qed.

Lemma find_longest_match_self :
  find_longest_match None autojunk a a 0 (length a) 0 (length a)
  = (0, 0, length a).
Proof.
  unfold find_longest_match.
  destruct scan_diagonal as (d & k & -> & Hdk).
  rewrite extend_down_diagonal by lia.
  rewrite (extend_up_diagonal (length a - (0 + (k + d))) (k + d)) by lia.
  cbn [extend_down]. simpl. rewrite Nat.sub_diag. reflexivity.
Qed.

Lemma get_opcodes_self :
  get_opcodes None autojunk a a
  = if length a =? 0 then [] else [(Equal, 0, length a, 0, length a)].
Proof.
  unfold get_opcodes, get_matching_blocks. cbv zeta.
  rewrite Nat.add_1_r. cbn [blocks_loop].
  rewrite find_longest_match_self.
  destruct (length a) as [|n] eqn:En.
  - reflexivity.
  - change (S n =? 0) with false. cbv iota.
    assert ((0 + S n <? S n) = false) as -> by (apply Nat.ltb_ge; simpl; lia).
    simpl "&&". cbv iota.
    assert (∀ fuel l, blocks_loop None autojunk a a fuel [] l = l) as ->
      by (by intros []).
    simpl. by rewrite Nat.ltb_irrefl.
Qed.

End DiagonalFacts.

Section Identical.
Import PyStr Tool Rows Report Cases Difflib.

Lemma ndiff_self (lines : list string) :
  ndiff lines lines = (λ line, String " " (String " " line)) <$> lines.
Proof.
  unfold ndiff, compare. rewrite get_opcodes_self.
  destruct lines as [|l lines]; [done|].
  change (length (l :: lines) =? 0) with false. cbv iota.
  csimpl. rewrite app_nil_r. unfold dump.
  rewrite firstn_all. reflexivity.
Qed.

Lemma expand_unchanged (l : list string) :
  ∀ o n, expand o n (Unchanged <$> l)
         = imap (λ i t, (Some (n + i, rstrip t), Some (o + i, rstrip t))) l.
Proof.
  induction l as [|t l IH]; intros o n; [done|].
  csimpl. rewrite !Nat.add_0_r. f_equal. rewrite IH.
  apply imap_ext. intros i x _. simpl. do 3 f_equal; lia.
Qed.

Lemma script_unchanged (lines : list string) :
  script ((λ line, String " " (String " " line)) <$> lines) = Unchanged <$> lines.
Proof.
  unfold script. induction lines as [|l lines IH]; [done|].
  csimpl. by rewrite IH.
Qed.

Lemma render_row_same (number : nat) (text : string) :
  render_row (str number +:+ " " +:+ text) (str number +:+ " " +:+ text)
  = if storable text
    then Ok (report_row (kept (str number)) (kept text)
                        (kept (str number)) (kept text) None None)
    else Raise IllegalCharacterError.
Proof.
  change (str number +:+ " " +:+ text) with (show (Some (number, text))).
  rewrite (render_row_run _ _ _ _ _ _
             (split_entry_show number text) (split_entry_show number text)).
  rewrite storable_str. cbn [andb].
  destruct (storable text); [|done]. cbn [andb]. by destruct (truthy text).
Qed.

Lemma render_rows_same (lines : list string) :
  ∀ f : nat → nat,
    render_rows
      (zip (imap (λ i line, str (f i) +:+ " " +:+ rstrip line) lines)
           (imap (λ i line, str (f i) +:+ " " +:+ rstrip line) lines))
    = if forallb (λ line, storable (rstrip line)) lines
      then Ok (imap (λ i line,
                       report_row (kept (str (f i))) (kept (rstrip line))
                                  (kept (str (f i))) (kept (rstrip line))
                                  None None) lines)
      else Raise IllegalCharacterError.
Proof.
  induction lines as [|l lines IH]; intros f; [done|].
  rewrite !imap_cons. cbn [zip zip_with render_rows forallb].
  rewrite (render_row_same (f 0) (rstrip l)).
  destruct (storable (rstrip l)); [|done]. cbn [andb].
  pose proof (IH (f ∘ S)) as IH'. unfold compose in IH' |- *.
  cbv beta in IH' |- *. rewrite IH'. by destruct (forallb _ _).
Qed.

(** X17: comparing a file with itself pairs every line with itself: both
    sides hold all the lines, stripped and under the same numbers from 1,
    and no row has a gap. *)
Theorem compare_files_identical (lines : list string) :
  align (ndiff lines lines)
  = (imap (λ i line, str (1 + i) +:+ " " +:+ rstrip line) lines,
     imap (λ i line, str (1 + i) +:+ " " +:+ rstrip line) lines).
Proof.
  rewrite ndiff_self, align_expand, script_unchanged, expand_unchanged.
  by rewrite !fmap_imap.
Qed.

(** X18: the report of a file compared with itself.  When every stripped
    line can be written to a cell, it has one row for each line, with the
    same number and content on both sides, as the cells keep them, and no
    fill; otherwise the rows are not made and [IllegalCharacterError] is
    raised. *)
Theorem create_excel_identical_plain (lines : list string) :
  render_rows (zip (align (ndiff lines lines)).1 (align (ndiff lines lines)).2)
  = if forallb (λ line, storable (rstrip line)) lines
    then Ok (imap (λ i line,
                     report_row (kept (str (1 + i))) (kept (rstrip line))
                                (kept (str (1 + i))) (kept (rstrip line))
                                None None) lines)
    else Raise IllegalCharacterError.
Proof.
  rewrite ndiff_self, align_expand, script_unchanged, expand_unchanged.
  cbn [fst snd]. rewrite !fmap_imap.
  apply (render_rows_same lines (λ i, 1 + i)).
Qed.

End Identical.

(** ** What [main] leaves alone *)

Section MainFrame.
Import PyStr Tool Rows Report Cases Samples.

(** X19: however a run of [main] ends, every file other than the one
    named by the third answer is afterwards as it was before; so the two
    inputs are never changed, unless one of them is named as the output. *)
Theorem main_changes_only_output (w : world) (path : string) :
  stdin w !! 2 ≠ Some path →
  files (main w).2 !! path = files w !! path.
Proof.
  intros Hpath.
  destruct (stdin w) as [|p_new [|p_old [|p_out rest]]] eqn:Hin.
  1-3: destruct w as [sin fs wr tr]; simpl in Hin; subst sin;
    unfold main, input, emit, readline; io_run; done.
  rewrite (main_run w p_new p_old p_out rest Hin). io_run.
  rewrite compare_files_run. cbn [files].
  destruct (files w !! strip_char quote p_old) as [[old| |wb]|]; try done.
  destruct (files w !! strip_char quote p_new) as [[new| |wb]|]; try done.
  io_run. rewrite create_excel_run.
  destruct (render_rows _) as [ws|e]; [|done].
  destruct (measure_columns ws) as [widths|e]; [|done].
  unfold log at 1. cbn [writable].
  destruct (writable w p_out); [|done].
  unfold print, emit. simpl. apply lookup_insert_ne.
  intros ->. by apply Hpath.
Qed.

Lemma main_changes_only_output_witness :
  files (main sample_world).2 !! "new.txt" = files sample_world !! "new.txt".
Proof.
  apply (main_changes_only_output sample_world "new.txt").
  vm_compute. discriminate.
Defined.

End MainFrame.

(** ** Further instances *)

Section MoreInstances.
Import PyStr Tool Rows Report Cases Samples.

Lemma read_file_lines_unbroken_witness :
  (read_file "new.txt" sample_world).1 = Ok ["a"; "x"; "c"]
  ∧ Forall no_linebreak ["a"; "x"; "c"].
Proof.
  split; [vm_compute; reflexivity|].
  apply (read_file_lines_unbroken "new.txt" sample_world).
  vm_compute. reflexivity.
Defined.

Lemma read_file_round_trip_witness :
  read_file "old.txt" sample_world
  = (Ok ["a"; "b"; "c"], log sample_world [Opened "old.txt"]).
Proof.
  apply (read_file_round_trip "old.txt" sample_world ["a"; "b"; "c"]).
  - repeat constructor.
  - vm_compute. reflexivity.
Defined.

Lemma highlight_follows_operation_witness :
  ∃ entry_new entry_old,
    new_lines (body locals0 "+ x") = new_lines locals0 ++ [entry_new]
    ∧ old_lines (body locals0 "+ x") = old_lines locals0 ++ [entry_old]
    ∧ render_row entry_new entry_old
      = Ok (report_row "1" "x" "" "" (Some FF00FF00) None).
Proof.
  exact (highlight_follows_operation locals0 "+ x" eq_refl).
Defined.

Lemma create_excel_row_number_witness :
  (create_excel ["1 a"; "2 b"] ["1 a"] "out.xlsx" sample_world).1 = Ok ()
  ∧ ∃ wb,
      files (create_excel ["1 a"; "2 b"] ["1 a"] "out.xlsx" sample_world).2
        !! "out.xlsx" = Some (Xlsx wb)
      ∧ length (cells wb) = 1.
Proof.
  split; [vm_compute; reflexivity|].
  apply (create_excel_row_number ["1 a"; "2 b"] ["1 a"] "out.xlsx" sample_world).
  vm_compute. reflexivity.
Defined.

Lemma main_needs_three_answers_witness :
  (main sample_world_short).1 = Raise EOFError
  ∧ files (main sample_world_short).2 = files sample_world_short
  ∧ trace (main sample_world_short).2
    = [ Prompted "Enter the path of the new file: ";
        Prompted "Enter the path of the old file: " ].
Proof.
  apply (main_needs_three_answers sample_world_short). simpl. lia.
Defined.




End MoreInstances.
